(** * A shallow embedding of the quantum circuit simulator (project.py)

    The simulator keeps one numpy array of two amplitudes per qubit, applies
    named 2x2 gates with [np.dot], a controlled-NOT through a four-amplitude
    Kronecker product, and turns the final per-qubit arrays into a probability
    array.

    Numbers.  numpy computes with int64, float64 and complex128 entries.  The
    embedding idealises all three as exact complex numbers over Rocq's reals:
    an integer entry [1] is the complex number [1 + 0i], [np.sqrt] is [sqrt],
    [np.pi] is [PI].  Rounding is therefore not part of these definitions;
    everything that the source computes with integer entries only (the |0>
    and |1> states under X, Z and CNOT) is exact in Python as well.  Where a
    statement is about rounding, module [F64] gives create_qubit and
    apply_gate once more over IEEE 754 binary64 floats.

    Arrays.  A one-dimensional numpy array is a [list C], a two-dimensional one
    a list of rows.  Python lists of arrays are lists, indexed by Python's
    rule (negative indices count from the end, anything else out of range
    raises IndexError).

    Exceptions.  The source raises [ValueError] at five places and Python's
    list indexing raises [IndexError]; a computation is a value of [result]. *)

From Stdlib Require Import Floats QArith.
From Stdlib Require Import Reals Lra Lia ZArith List Ascii String Bool.
From stdpp Require Import base list.
Import ListNotations.

Local Open Scope R_scope.

(** ** Exceptions and the error monad *)

(** The places where project.py (or numpy on its behalf) raises ValueError. *)
Inductive value_error : Type :=
| UnknownState        (* create_qubit: "Unknown state: Use '0', '1', '+', or '-'" *)
| UnknownGate         (* apply_gate: 'Unknown gate: Use "H", "X", "Z", "S", or "T"' *)
| UnsupportedGate     (* simulate_circuit: "Unknown or unsupported gate" *)
| TooFewQubits        (* apply_cnot: "CNOT requires at least 2 qubits" *)
| ShapesNotAligned.   (* np.dot on a matrix and a vector of another length *)

Inductive exn : Type :=
| ValueError (why : value_error)
| IndexError.         (* "list index out of range" *)

Inductive result (A : Type) : Type :=
| Ok (a : A)
| Err (e : exn).
Arguments Ok {A} a.
Arguments Err {A} e.

Definition bind {A B : Type} (r : result A) (k : A -> result B) : result B :=
  match r with
  | Ok a => k a
  | Err e => Err e
  end.

Notation "'let*' x ':=' r 'in' k" := (bind r (fun x => k))
  (at level 10, x name, r at level 100, k at level 200).

(** A list comprehension whose body may raise: the first exception wins. *)
Fixpoint map_result {A B : Type} (f : A -> result B) (l : list A) : result (list B) :=
  match l with
  | [] => Ok []
  | x :: l' => let* y := f x in let* ys := map_result f l' in Ok (y :: ys)
  end.

(** A [for] loop that threads a value through a body that may raise. *)
Fixpoint fold_result {S A : Type} (f : S -> A -> result S) (s : S) (l : list A) : result S :=
  match l with
  | [] => Ok s
  | x :: l' => let* s' := f s x in fold_result f s' l'
  end.

Definition is_ok {A : Type} (r : result A) : bool :=
  match r with Ok _ => true | Err _ => false end.

(** ** Complex numbers *)

Record C : Type := mkC { Re : R; Im : R }.

Definition RtoC (x : R) : C := mkC x 0.
Definition C0 : C := RtoC 0.
Definition C1 : C := RtoC 1.
(** Python's [1j]. *)
Definition Ci : C := mkC 0 1.

Definition Cplus (z w : C) : C := mkC (Re z + Re w) (Im z + Im w).
Definition Cmult (z w : C) : C :=
  mkC (Re z * Re w - Im z * Im w) (Re z * Im w + Im z * Re w).
Definition Cdiv (z w : C) : C :=
  let d := Re w * Re w + Im w * Im w in
  mkC ((Re z * Re w + Im z * Im w) / d) ((Im z * Re w - Re z * Im w) / d).
(** [np.exp] on a complex argument. *)
Definition Cexp (z : C) : C := mkC (exp (Re z) * cos (Im z)) (exp (Re z) * sin (Im z)).
(** [np.abs] on a complex entry. *)
Definition Cabs (z : C) : R := sqrt (Re z * Re z + Im z * Im z).

(** ** numpy arrays *)

Definition array : Type := list C.
Definition matrix : Type := list (list C).

Definition Csum (l : list C) : C := fold_right Cplus C0 l.

(** [np.kron] on two one-dimensional arrays: entry [i * len b + j] of the
    result is [a[i] * b[j]]. *)
Definition kron (a b : array) : array := flat_map (fun x => map (Cmult x) b) a.

(** [np.dot] of a two-dimensional with a one-dimensional array: one inner
    product per row; numpy raises ValueError unless every row is as long as
    the vector. *)
Definition dot (m : matrix) (v : array) : result array :=
  if forallb (fun row => Nat.eqb (length row) (length v)) m
  then Ok (map (fun row => Csum (zip_with Cmult row v)) m)
  else Err (ValueError ShapesNotAligned).

(** ** Python list indexing *)

Definition py_index (n : nat) (i : Z) : result nat :=
  if ((0 <=? i) && (i <? Z.of_nat n))%Z then Ok (Z.to_nat i)
  else if ((- Z.of_nat n <=? i) && (i <? 0))%Z then Ok (Z.to_nat (Z.of_nat n + i))
  else Err IndexError.

(** [l[i]] as an expression. *)
Definition getitem {A : Type} (l : list A) (i : Z) : result A :=
  let* k := py_index (length l) i in
  match l !! k with
  | Some x => Ok x
  | None => Err IndexError
  end.

(** [l[i] = x] as a statement; the list after the assignment. *)
Definition setitem {A : Type} (l : list A) (i : Z) (x : A) : result (list A) :=
  let* k := py_index (length l) i in Ok (<[k := x]> l).

(** A dict with string keys, as the list of its items. *)
Fixpoint dict_get {V : Type} (d : list (string * V)) (key : string) : option V :=
  match d with
  | [] => None
  | (k, v) :: d' => if String.eqb key k then Some v else dict_get d' key
  end.

(** ** project.py *)

Definition create_qubit (state : string) : result array :=
  if String.eqb state "0" then Ok [C1; C0]
  else if String.eqb state "1" then Ok [C0; C1]
  else if String.eqb state "+" then Ok [RtoC (1 / sqrt 2); RtoC (1 / sqrt 2)]
  else if String.eqb state "-" then Ok [RtoC (1 / sqrt 2); RtoC (-1 / sqrt 2)]
  else Err (ValueError UnknownState).

(** The dict [gates] built inside apply_gate. *)
Definition gates : list (string * matrix) :=
  [ ("H"%string, [ [RtoC (1 / sqrt 2); RtoC (1 / sqrt 2)];
                   [RtoC (1 / sqrt 2); RtoC (-1 / sqrt 2)] ]);
    ("X"%string, [ [C0; C1]; [C1; C0] ]);
    ("Z"%string, [ [C1; C0]; [C0; RtoC (-1)] ]);
    ("S"%string, [ [C1; C0]; [C0; Ci] ]);
    ("T"%string, [ [C1; C0];
                   [C0; Cexp (Cdiv (Cmult Ci (RtoC PI)) (RtoC 4))] ]) ].

Definition apply_gate (qubit : array) (gate : string) : result array :=
  match dict_get gates gate with
  | None => Err (ValueError UnknownGate)
  | Some g => dot g qubit
  end.

Definition cnot_matrix : matrix :=
  [ [C1; C0; C0; C0];
    [C0; C1; C0; C0];
    [C0; C0; C0; C1];
    [C0; C0; C1; C0] ].

(** apply_cnot assigns into the list it was given and returns that list; the
    embedding returns the list after the two assignments. *)
Definition apply_cnot (qubits : list array) (control target : Z) : result (list array) :=
  if (length qubits <? 2)%nat then Err (ValueError TooFewQubits)
  else
    let* qc := getitem qubits control in
    let* qt := getitem qubits target in
    let state_vector := kron qc qt in
    let* new_state_vector := dot cnot_matrix state_vector in
    let* qubits1 := setitem qubits control (take 2 new_state_vector) in
    setitem qubits1 target (drop 2 new_state_vector).

(** The tuples of [gates_sequence]: a pair [(qubit_idx, gate)], a triple
    [(name, control, target)], or a tuple of any other length. *)
Inductive operation : Type :=
| SingleQubitOp (qubit_idx : Z) (gate : string)
| TwoQubitOp (name : string) (control target : Z)
| OtherOp.

(** One iteration of the loop of simulate_circuit (the calls of [print] are
    left out: they only read the list). *)
Definition step (qubits : list array) (op : operation) : result (list array) :=
  match op with
  | SingleQubitOp qubit_idx gate =>
      let* q := getitem qubits qubit_idx in
      let* q' := apply_gate q gate in
      setitem qubits qubit_idx q'
  | TwoQubitOp name control target =>
      if String.eqb name "CNOT" then apply_cnot qubits control target
      else Err (ValueError UnsupportedGate)
  | OtherOp => Err (ValueError UnsupportedGate)
  end.

Definition simulate_circuit (initial_states : list string) (gates_sequence : list operation)
  : result (list array) :=
  let* qubits := map_result create_qubit initial_states in
  fold_result step qubits gates_sequence.

(** [np.abs(state_vector) ** 2]. *)
Definition abs_squared (state_vector : array) : list R :=
  map (fun z => Cabs z ^ 2) state_vector.

Definition calculate_probabilities (qubits : list array) : result (list R) :=
  if (length qubits =? 1)%nat then
    let* state_vector := getitem qubits 0%Z in
    Ok (abs_squared state_vector)
  else
    let* q0 := getitem qubits 0%Z in
    let state_vector := fold_left kron (drop 1 qubits) q0 in
    Ok (abs_squared state_vector).

Definition Rsum (l : list R) : R := fold_right Rplus 0 l.

(** ** Predicates used in the statements *)

(** The keys of the dict [gates]. *)
Definition known_gate (gate : string) : Prop :=
  gate = "H"%string \/ gate = "X"%string \/ gate = "Z"%string \/
  gate = "S"%string \/ gate = "T"%string.

(** |a0|^2 + |a1|^2 for a qubit (a0, a1). *)
Definition norm_squared (a0 a1 : C) : R := Cabs a0 ^ 2 + Cabs a1 ^ 2.



(** A qubit of two amplitudes and norm 1. *)
Definition normalized (q : array) : Prop :=
  exists a0 a1 : C, q = [a0; a1] /\ norm_squared a0 a1 = 1.

(** An operation that is a single-qubit one. *)
Definition cnot_free (op : operation) : Prop :=
  match op with
  | SingleQubitOp _ _ => True
  | _ => False
  end.

(** The controlled-NOT step in the words of the specification: the joint
    vector j with j[2p+q] = sc[p] * st[q], the 4x4 permutation matrix CNOT4,
    and the product j' = CNOT4 . j. *)
Module CNOTSpec.
Definition joint (sc st : array) (k : nat) : C :=
  Cmult (nth (k / 2) sc C0) (nth (k mod 2) st C0).

Definition CNOT4 (r k : nat) : C :=
  nth k (nth r [ [C1; C0; C0; C0];
                 [C0; C1; C0; C0];
                 [C0; C0; C0; C1];
                 [C0; C0; C1; C0] ] []) C0.

Definition permuted (sc st : array) (r : nat) : C :=
  Csum (map (fun k => Cmult (CNOT4 r k) (joint sc st k)) (seq 0 4)).
End CNOTSpec.

(** ** The rest of project.py: labels of the basis states and main's check *)

(** [bin(i)[2:]] for [i >= 0]: the binary digits of [i], most significant
    first, the single digit 0 for [i = 0]. *)
Fixpoint pos_digits (p : positive) : list Ascii.ascii :=
  match p with
  | xH => ["1"%char]
  | xO p' => pos_digits p' ++ ["0"%char]
  | xI p' => pos_digits p' ++ ["1"%char]
  end.

Definition bin_digits (i : N) : list Ascii.ascii :=
  match i with
  | N0 => ["0"%char]
  | Npos p => pos_digits p
  end.

(** [s.zfill(width)] on a string without sign: zeros on the left up to
    [width] characters, nothing when [s] is that long already. *)
Definition zfill (width : nat) (s : list Ascii.ascii) : list Ascii.ascii :=
  repeat "0"%char (width - length s) ++ s.

(** The list [states] of plot_histogram_to_pdf and main:
    [f"|{bin(i)[2:].zfill(num_qubits)}>" for i in range(2**num_qubits)]. *)
Definition state_label (num_qubits : nat) (i : nat) : list Ascii.ascii :=
  ["|"%char] ++ zfill num_qubits (bin_digits (N.of_nat i)) ++ [">"%char].

Definition states (num_qubits : nat) : list (list Ascii.ascii) :=
  map (state_label num_qubits) (seq 0 (2 ^ num_qubits)).

(** [state in ['0', '1', '+', '-']]. *)
Definition valid_state (state : string) : bool :=
  existsb (String.eqb state) ["0"; "1"; "+"; "-"]%string.

(** The loop of main that validates the initial states before the run. *)
Definition validate_initial_states (initial_states : list string) : result unit :=
  fold_result
    (fun (_ : unit) (state : string) =>
       if negb (valid_state state) then Err (ValueError UnknownState) else Ok tt)
    tt initial_states.

(** ** Further predicates used in the statements *)

(** An index that Python accepts for a list of [n] elements. *)
Definition valid_index (n : nat) (i : Z) : bool :=
  ((- Z.of_nat n <=? i) && (i <? Z.of_nat n))%Z.

Definition known_gateb (gate : string) : bool :=
  existsb (String.eqb gate) ["H"; "X"; "Z"; "S"; "T"]%string.

(** The operations that one iteration of the loop accepts on [n] qubits. *)
Definition valid_operation (n : nat) (op : operation) : bool :=
  match op with
  | SingleQubitOp qubit_idx gate => valid_index n qubit_idx && known_gateb gate
  | TwoQubitOp name control target =>
      String.eqb name "CNOT" && (2 <=? n)%nat
      && valid_index n control && valid_index n target
  | OtherOp => false
  end.

(** A list of bits read as a binary number, most significant bit first. *)
Definition bit_value (b : bool) : nat := if b then 1%nat else 0%nat.

Definition bits_index (bits : list bool) : nat :=
  fold_left (fun acc b => (2 * acc + bit_value b)%nat) bits 0%nat.

Definition bit_char (b : bool) : Ascii.ascii := if b then "1"%char else "0"%char.

Definition Rprod (l : list R) : R := fold_right Rmult 1 l.

(** The label 0 or 1 of a bit. *)
Definition basis_state_label (b : bool) : string := if b then "1"%string else "0"%string.

(** [q[0]] or [q[1]], selected by a bit. *)
Definition amplitude (q : array) (b : bool) : C := nth (bit_value b) q C0.

(** The product of the amplitudes that the bits select, multiplied in the
    order in which the loop of calculate_probabilities applies np.kron:
    ((q0[b0] * q1[b1]) * q2[b2]) ... *)
Definition joint_amplitude (qubits : list array) (bits : list bool) : C :=
  match zip_with amplitude qubits bits with
  | [] => C1
  | z :: zs => fold_left Cmult zs z
  end.

(** What the gates X and Z do to the bits of basis states: X at a valid
    index flips that bit, Z changes no bit. *)
Definition flip_bit (bits : list bool) (i : Z) : list bool :=
  match py_index (length bits) i with
  | Ok k =>
      match bits !! k with
      | Some b => <[k := negb b]> bits
      | None => bits
      end
  | Err _ => bits
  end.

Definition classical_step (bits : list bool) (op : operation) : list bool :=
  match op with
  | SingleQubitOp qubit_idx gate =>
      if String.eqb gate "X" then flip_bit bits qubit_idx else bits
  | _ => bits
  end.

Definition classical_bits (bits : list bool) (ops : list operation) : list bool :=
  fold_left classical_step ops bits.

(** A single-qubit operation with gate X or Z at a Python-valid index. *)
Definition classical_operation (n : nat) (op : operation) : bool :=
  match op with
  | SingleQubitOp qubit_idx gate =>
      valid_index n qubit_idx && (String.eqb gate "X" || String.eqb gate "Z")
  | _ => false
  end.

(** The basis state of a bit, with amplitude [s]; [s] is 1 or -1 below. *)
Definition signed_ket (s : R) (b : bool) : array :=
  if b then [C0; RtoC s] else [RtoC s; C0].

Definition basis_qubit (q : array) (b : bool) : Prop :=
  q = signed_ket 1 b \/ q = signed_ket (-1) b.

(** An array of two amplitudes. *)
Definition two_amplitudes (q : array) : Prop := length q = 2%nat.

(** ** create_qubit and apply_gate over float64

    The definitions above compute with exact reals.  For statements about
    rounding, the two functions are given once more with numpy's arithmetic:
    an entry is a complex128 number, a pair of IEEE 754 binary64 floats (an
    int64 or float64 entry has imaginary part 0, and the complex formulas
    then give what the real ones give); every product and every sum is
    rounded to nearest; the inner product of a row with the vector adds the
    products from left to right. *)
Module F64.
Record C64 : Type := mkC64 { re64 : float; im64 : float }.

Definition real64 (x : float) : C64 := mkC64 x PrimFloat.zero.

Definition add64 (z w : C64) : C64 :=
  mkC64 (PrimFloat.add (re64 z) (re64 w)) (PrimFloat.add (im64 z) (im64 w)).

Definition mul64 (z w : C64) : C64 :=
  mkC64 (PrimFloat.sub (PrimFloat.mul (re64 z) (re64 w)) (PrimFloat.mul (im64 z) (im64 w)))
        (PrimFloat.add (PrimFloat.mul (re64 z) (im64 w)) (PrimFloat.mul (im64 z) (re64 w))).

(** [1 / np.sqrt(2)]: the float 0.7071067811865475. *)
Definition inv_sqrt2 : float := PrimFloat.div 1%float (PrimFloat.sqrt 2%float).

(** [-1 / np.sqrt(2)]. *)
Definition neg_inv_sqrt2 : float := PrimFloat.div (-1)%float (PrimFloat.sqrt 2%float).

(** The value of [np.exp(1j * np.pi / 4)]: the cosine and the sine of the
    float nearest to pi/4, each rounded to nearest, that is
    0.7071067811865476 + 0.7071067811865475j. *)
Definition exp_i_pi_4 : C64 := mkC64 0x1.6a09e667f3bcdp-1%float 0x1.6a09e667f3bccp-1%float.

Definition create_qubit (state : string) : result (list C64) :=
  if String.eqb state "0" then Ok [real64 1%float; real64 0%float]
  else if String.eqb state "1" then Ok [real64 0%float; real64 1%float]
  else if String.eqb state "+" then Ok [real64 inv_sqrt2; real64 inv_sqrt2]
  else if String.eqb state "-" then Ok [real64 inv_sqrt2; real64 neg_inv_sqrt2]
  else Err (ValueError UnknownState).

Definition gates : list (string * list (list C64)) :=
  [ ("H"%string, [ [real64 inv_sqrt2; real64 inv_sqrt2];
                   [real64 inv_sqrt2; real64 neg_inv_sqrt2] ]);
    ("X"%string, [ [real64 0%float; real64 1%float]; [real64 1%float; real64 0%float] ]);
    ("Z"%string, [ [real64 1%float; real64 0%float]; [real64 0%float; real64 (-1)%float] ]);
    ("S"%string, [ [real64 1%float; real64 0%float];
                   [real64 0%float; mkC64 0%float 1%float] ]);
    ("T"%string, [ [real64 1%float; real64 0%float];
                   [real64 0%float; exp_i_pi_4] ]) ].

(** The inner product of one row with the vector. *)
Definition inner64 (row v : list C64) : C64 :=
  match zip_with mul64 row v with
  | [] => real64 0%float
  | p :: ps => fold_left add64 ps p
  end.

Definition dot (m : list (list C64)) (v : list C64) : result (list C64) :=
  if forallb (fun row => Nat.eqb (length row) (length v)) m
  then Ok (map (fun row => inner64 row v) m)
  else Err (ValueError ShapesNotAligned).

Definition apply_gate (qubit : list C64) (gate : string) : result (list C64) :=
  match dict_get gates gate with
  | None => Err (ValueError UnknownGate)
  | Some g => dot g qubit
  end.




End F64.

(** ** Arithmetic of the complex entries *)

Lemma C_eq (a b c d : R) : a = c -> b = d -> mkC a b = mkC c d.
Proof. intros -> ->; reflexivity. Qed.

Lemma C_inj (a b c d : R) : mkC a b = mkC c d -> a = c /\ b = d.
Proof. intros H; injection H; auto. Qed.

Lemma Cabs_sqr (z : C) : Cabs z ^ 2 = Re z * Re z + Im z * Im z.
Proof.
  unfold Cabs. cbn [pow]. rewrite Rmult_1_r.
  apply sqrt_sqrt. nra.
Qed.

Lemma C1_neq_C0 : C1 <> C0.
Proof. intros H. apply C_inj in H. lra. Qed.

Lemma sqrt2_pos : 0 < sqrt 2.
Proof. apply sqrt_lt_R0; lra. Qed.

Lemma inv_sqrt2_sqr : (1 / sqrt 2) * (1 / sqrt 2) = 1 / 2.
Proof.
  pose proof sqrt2_pos as Hpos.
  pose proof (sqrt_sqrt 2 ltac:(lra)) as Hsq.
  field_simplify_eq; [lra | lra].
Qed.

(** The entry [np.exp(1j * np.pi / 4)] of the T gate. *)
Lemma T_phase :
  Cexp (Cdiv (Cmult Ci (RtoC PI)) (RtoC 4)) = mkC (cos (PI / 4)) (sin (PI / 4)).
Proof.
  unfold Cexp, Cdiv, Cmult, Ci, RtoC; cbn [Re Im].
  replace ((0 * PI - 1 * 0) * 4 + (0 * 0 + 1 * PI) * 0) with 0 by ring.
  replace (((0 * 0 + 1 * PI) * 4 - (0 * PI - 1 * 0) * 0) / (4 * 4 + 0 * 0))
    with (PI / 4) by field.
  replace (0 / (4 * 4 + 0 * 0)) with 0 by field.
  rewrite exp_0. apply C_eq; ring.
Qed.

Lemma T_phase_value :
  Cexp (Cdiv (Cmult Ci (RtoC PI)) (RtoC 4)) = mkC (1 / sqrt 2) (1 / sqrt 2).
Proof. rewrite T_phase, cos_PI4, sin_PI4. reflexivity. Qed.

(** Evaluation of the model on concrete inputs: everything is unfolded except
    the field operations of the reals. *)
Ltac py_eval :=
  cbv -[Rplus Rminus Rmult Ropp Rdiv Rinv IZR sqrt PI exp cos sin pow Cabs].
Ltac split_entries :=
  repeat match goal with
         | |- Ok _ = Ok _ => f_equal
         | |- Some _ = Some _ => f_equal
         | |- _ :: _ = _ :: _ => f_equal
         | |- mkC _ _ = mkC _ _ => apply C_eq
         end.
Ltac Carith := split_entries; first [reflexivity | lra | ring].
Ltac Rabs2 := rewrite ?Cabs_sqr; cbn [Re Im]; Carith.

(** ** Python indexing *)

Section Indexing.
Context {A : Type}.
Implicit Types (l : list A) (i : Z) (k n : nat).

Lemma py_index_nonneg n i :
  (0 <= i < Z.of_nat n)%Z -> py_index n i = Ok (Z.to_nat i).
Proof.
  intros [H0 Hn]. unfold py_index.
  apply Z.leb_le in H0. apply Z.ltb_lt in Hn. rewrite H0, Hn. reflexivity.
Qed.

Lemma py_index_negative n i :
  (- Z.of_nat n <= i < 0)%Z -> py_index n i = Ok (Z.to_nat (Z.of_nat n + i)).
Proof.
  intros [Hlo Hhi]. unfold py_index.
  replace (0 <=? i)%Z with false by (symmetry; apply Z.leb_gt; lia).
  apply Z.leb_le in Hlo. apply Z.ltb_lt in Hhi. rewrite Hlo, Hhi. reflexivity.
Qed.


Lemma py_index_Ok n i k : py_index n i = Ok k -> (k < n)%nat.
Proof.
  unfold py_index.
  destruct ((0 <=? i) && (i <? Z.of_nat n))%Z eqn:E1.
  - apply andb_true_iff in E1 as [H0 Hn].
    apply Z.leb_le in H0. apply Z.ltb_lt in Hn.
    intros [= <-]. lia.
  - destruct ((- Z.of_nat n <=? i) && (i <? 0))%Z eqn:E2; [|discriminate].
    apply andb_true_iff in E2 as [Hlo Hhi].
    apply Z.leb_le in Hlo. apply Z.ltb_lt in Hhi.
    intros [= <-]. lia.
Qed.

Lemma py_index_Err n i e : py_index n i = Err e -> e = IndexError.
Proof.
  unfold py_index.
  repeat match goal with |- context [if ?b then _ else _] => destruct b end;
    congruence.
Qed.

Lemma getitem_Ok l i k :
  py_index (length l) i = Ok k -> exists x, l !! k = Some x /\ getitem l i = Ok x.
Proof.
  intros Hk. pose proof (py_index_Ok _ _ _ Hk) as Hlt.
  destruct (lookup_lt_is_Some_2 l k Hlt) as [x Hx].
  exists x. split; [exact Hx|].
  unfold getitem. rewrite Hk. cbn [bind]. rewrite Hx. reflexivity.
Qed.



Lemma setitem_Ok l i k x :
  py_index (length l) i = Ok k -> setitem l i x = Ok (<[k := x]> l).
Proof. intros Hk. unfold setitem. rewrite Hk. reflexivity. Qed.

Lemma setitem_length l i x l' : setitem l i x = Ok l' -> length l' = length l.
Proof.
  unfold setitem. destruct (py_index (length l) i); cbn [bind]; [|discriminate].
  intros [= <-]. apply length_insert.
Qed.
End Indexing.

(** ** np.dot on the two shapes that project.py uses *)

Lemma dot_2x2 (a b c d x y : C) :
  dot [[a; b]; [c; d]] [x; y]
  = Ok [Cplus (Cmult a x) (Cplus (Cmult b y) C0);
        Cplus (Cmult c x) (Cplus (Cmult d y) C0)].
Proof. reflexivity. Qed.

Lemma dot_cnot (j0 j1 j2 j3 : C) :
  dot cnot_matrix [j0; j1; j2; j3] = Ok [j0; j1; j3; j2].
Proof.
  destruct j0, j1, j2, j3. py_eval. Carith.
Qed.

Lemma kron_2_2 (c0 c1 t0 t1 : C) :
  kron [c0; c1] [t0; t1] = [Cmult c0 t0; Cmult c0 t1; Cmult c1 t0; Cmult c1 t1].
Proof. reflexivity. Qed.

Lemma length_2_inv {A : Type} (l : list A) :
  length l = 2%nat -> exists x y, l = [x; y].
Proof.
  destruct l as [|x [|y [|z l]]]; try discriminate. intros _. eauto.
Qed.

(** ** create_qubit and the gate table *)

(** C7.  create_qubit sends the label 0 to (1,0), 1 to (0,1), + to
    (1/sqrt 2, 1/sqrt 2), - to (1/sqrt 2, -1/sqrt 2), and raises the
    unknown-state ValueError for every other label. *)
Theorem create_qubit_labels :
  create_qubit "0" = Ok [C1; C0] /\
  create_qubit "1" = Ok [C0; C1] /\
  create_qubit "+" = Ok [RtoC (1 / sqrt 2); RtoC (1 / sqrt 2)] /\
  create_qubit "-" = Ok [RtoC (1 / sqrt 2); RtoC (- (1 / sqrt 2))] /\
  forall label : string,
    label <> "0"%string -> label <> "1"%string ->
    label <> "+"%string -> label <> "-"%string ->
    create_qubit label = Err (ValueError UnknownState).
Proof.
  repeat split; try reflexivity.
  - unfold create_qubit. cbn. do 3 f_equal. apply C_eq; [|reflexivity].
    pose proof sqrt2_pos. field. lra.
  - intros label H0 H1 Hp Hm. unfold create_qubit.
    apply String.eqb_neq in H0, H1, Hp, Hm.
    rewrite H0, H1, Hp, Hm. reflexivity.
Qed.

Lemma create_qubit_labels_witness :
  create_qubit "invalid" = Err (ValueError UnknownState).
Proof.
  apply (proj2 (proj2 (proj2 (proj2 create_qubit_labels)))); discriminate.
Defined.

Lemma dict_get_gates_unknown (gate : string) :
  ~ known_gate gate -> dict_get gates gate = None.
Proof.
  intros Hn. unfold known_gate in Hn. cbn [dict_get gates].
  repeat match goal with
         | |- context [String.eqb gate ?s] =>
             destruct (String.eqb_spec gate s); [exfalso; apply Hn; tauto|]
         end.
  reflexivity.
Qed.

Lemma dict_get_gates_Some (gate : string) (g : matrix) :
  dict_get gates gate = Some g -> known_gate gate.
Proof.
  unfold known_gate. cbn [dict_get gates].
  repeat match goal with
         | |- context [String.eqb gate ?s] =>
             destruct (String.eqb_spec gate s); [tauto|]
         end.
  discriminate.
Qed.

Lemma dict_get_gates_known (gate : string) :
  known_gate gate -> exists a b c d, dict_get gates gate = Some [[a; b]; [c; d]].
Proof.
  intros [-> | [-> | [-> | [-> | ->]]]]; cbn; eauto.
Qed.

(** C8.  The dict of apply_gate holds, under the names H, X, Z, S and T, the
    matrices of the gate library; the last entry of T, written
    [np.exp(1j * np.pi / 4)], is the number cos(pi/4) + i sin(pi/4), that is
    (1 + i)/sqrt 2; and apply_gate raises the unknown-gate ValueError for
    every other name, whatever the qubit. *)
Theorem gates_table :
  dict_get gates "H" = Some [ [RtoC (1 / sqrt 2); RtoC (1 / sqrt 2)];
                              [RtoC (1 / sqrt 2); RtoC (- (1 / sqrt 2))] ] /\
  dict_get gates "X" = Some [ [C0; C1]; [C1; C0] ] /\
  dict_get gates "Z" = Some [ [C1; C0]; [C0; RtoC (-1)] ] /\
  dict_get gates "S" = Some [ [C1; C0]; [C0; Ci] ] /\
  dict_get gates "T" = Some [ [C1; C0]; [C0; mkC (cos (PI / 4)) (sin (PI / 4))] ] /\
  mkC (cos (PI / 4)) (sin (PI / 4)) = mkC (1 / sqrt 2) (1 / sqrt 2) /\
  forall (qubit : array) (gate : string),
    ~ known_gate gate -> apply_gate qubit gate = Err (ValueError UnknownGate).
Proof.
  repeat split; try reflexivity.
  - cbn. do 5 f_equal. apply C_eq; [|reflexivity].
    pose proof sqrt2_pos. field. lra.
  - cbn. rewrite T_phase. reflexivity.
  - rewrite cos_PI4, sin_PI4. reflexivity.
  - intros qubit gate Hn. unfold apply_gate.
    rewrite dict_get_gates_unknown by exact Hn. reflexivity.
Qed.

Lemma not_known_gate_Y : ~ known_gate "Y".
Proof. unfold known_gate. intros H. decompose [or] H; discriminate. Qed.

Lemma gates_table_witness :
  apply_gate [C1; C0] "Y" = Err (ValueError UnknownGate).
Proof.
  apply (proj2 (proj2 (proj2 (proj2 (proj2 (proj2 gates_table)))))).
  exact not_known_gate_Y.
Defined.

(** ** calculate_probabilities *)

(** C9.  calculate_probabilities raises on the empty list (the IndexError of
    [qubits[0]]: the source has no check of its own for an empty collection)
    and returns an array for every list that is not empty. *)
Theorem calculate_probabilities_empty :
  calculate_probabilities [] = Err IndexError /\
  forall qubits : list array,
    qubits <> [] -> exists probabilities, calculate_probabilities qubits = Ok probabilities.
Proof.
  split; [reflexivity|].
  intros [|q0 rest] Hne; [contradiction|].
  unfold calculate_probabilities.
  destruct (length (q0 :: rest) =? 1)%nat; cbn; eauto.
Qed.

Lemma calculate_probabilities_empty_witness :
  exists probabilities, calculate_probabilities [[C0; C1]] = Ok probabilities.
Proof.
  apply (proj2 calculate_probabilities_empty). discriminate.
Defined.

Lemma calculate_probabilities_ket01_value :
  calculate_probabilities [[C1; C0]; [C0; C1]] = Ok [0; 1; 0; 0].
Proof. py_eval. Rabs2. Qed.

(** C4, as the code has it.  For the two qubits made from the labels 0 and 1
    calculate_probabilities returns [0, 1, 0, 0]: the Kronecker product of
    (1,0) and (0,1) is (0,1,0,0), qubit 0 being the most significant bit. *)
Theorem calculate_probabilities_ket01 :
  (let* q0 := create_qubit "0" in
   let* q1 := create_qubit "1" in
   calculate_probabilities [q0; q1]) = Ok [0; 1; 0; 0].
Proof. exact calculate_probabilities_ket01_value. Qed.

(** C4, as stated: the result is not [0, 0, 1, 0]. *)
Lemma calculate_probabilities_ket01_not_0010 :
  (let* q0 := create_qubit "0" in
   let* q1 := create_qubit "1" in
   calculate_probabilities [q0; q1]) <> Ok [0; 0; 1; 0].
Proof.
  change (calculate_probabilities [[C1; C0]; [C0; C1]] <> Ok [0; 0; 1; 0]).
  rewrite calculate_probabilities_ket01_value.
  intros H. injection H as H1 H2. lra.
Qed.

(** ** apply_cnot *)

(** What apply_cnot returns when both indices are valid for Python and the
    two entries are arrays of two amplitudes: the assignment to
    [qubits[control]] comes first, the one to [qubits[target]] second. *)
Lemma apply_cnot_entries (qubits : list array) (control target : Z) (c t : nat)
      (c0 c1 t0 t1 : C) :
  (2 <= length qubits)%nat ->
  py_index (length qubits) control = Ok c ->
  py_index (length qubits) target = Ok t ->
  (qubits !! c : option array) = Some [c0; c1] ->
  (qubits !! t : option array) = Some [t0; t1] ->
  apply_cnot qubits control target
  = Ok (<[t := [Cmult c1 t1; Cmult c1 t0]]>
          (<[c := [Cmult c0 t0; Cmult c0 t1]]> qubits)).
Proof.
  intros Hlen Hc Ht Hqc Hqt. unfold apply_cnot.
  replace (length qubits <? 2)%nat with false by (symmetry; apply Nat.ltb_ge; lia).
  unfold getitem. rewrite Hc, Ht. cbn [bind]. rewrite Hqc, Hqt. cbn [bind].
  rewrite kron_2_2, dot_cnot. cbn [bind take drop].
  rewrite (setitem_Ok _ _ c) by exact Hc. cbn [bind].
  apply setitem_Ok. rewrite length_insert. exact Ht.
Qed.

Lemma CNOTSpec_permuted (c0 c1 t0 t1 : C) :
  [CNOTSpec.permuted [c0; c1] [t0; t1] 0; CNOTSpec.permuted [c0; c1] [t0; t1] 1]
  = [Cmult c0 t0; Cmult c0 t1] /\
  [CNOTSpec.permuted [c0; c1] [t0; t1] 2; CNOTSpec.permuted [c0; c1] [t0; t1] 3]
  = [Cmult c1 t1; Cmult c1 t0].
Proof.
  destruct c0, c1, t0, t1. split; py_eval; Carith.
Qed.

(** C1 at the code.  For the qubits made from the labels 0 and 1, apply_cnot
    with control 0 and target 1 returns (0,1) for qubit 0 and (0,0) for
    qubit 1; the claim expects both unchanged, (1,0) and (0,1). *)
Theorem apply_cnot_ket0_ket1 :
  (let* q0 := create_qubit "0" in
   let* q1 := create_qubit "1" in
   apply_cnot [q0; q1] 0 1) = Ok [[C0; C1]; [C0; C0]]
  /\ [[C0; C1]; [C0; C0]] <> [[C1; C0]; [C0; C1]].
Proof.
  split.
  - py_eval. Carith.
  - intros H. apply C1_neq_C0. congruence.
Qed.

(** C2 at the code.  The run on the labels 0 and 1 with the single operation
    CNOT 0 1 succeeds, and calculate_probabilities of its result is
    [0, 0, 0, 0], whose sum is 0 and not 1. *)
Theorem probabilities_after_cnot_sum_0 :
  exists qubits probabilities,
    simulate_circuit ["0"; "1"]%string [TwoQubitOp "CNOT" 0 1] = Ok qubits /\
    calculate_probabilities qubits = Ok probabilities /\
    probabilities = [0; 0; 0; 0] /\
    Rsum probabilities = 0 /\ Rsum probabilities <> 1.
Proof.
  exists [[C0; C1]; [C0; C0]], [0; 0; 0; 0].
  split; [py_eval; Carith|].
  split; [py_eval; Rabs2|].
  split; [reflexivity|].
  cbn [Rsum fold_right]. split; lra.
Qed.

(** C3, as the code has it.  For a collection of at least two qubits, each an
    array of two amplitudes, and in-range indices control and target,
    apply_cnot returns the collection in which target's entry is the last two
    components of CNOT4 . j, control's entry is the first two components when
    control and target differ, and every other entry is unchanged. *)
Theorem apply_cnot_spec (qubits : list array) (control target : Z) :
  (2 <= length qubits)%nat ->
  Forall (fun q : array => length q = 2%nat) qubits ->
  (0 <= control < Z.of_nat (length qubits))%Z ->
  (0 <= target < Z.of_nat (length qubits))%Z ->
  exists (sc st : array) (qubits' : list array),
    qubits !! Z.to_nat control = Some sc /\
    qubits !! Z.to_nat target = Some st /\
    apply_cnot qubits control target = Ok qubits' /\
    length qubits' = length qubits /\
    qubits' !! Z.to_nat target
    = Some [CNOTSpec.permuted sc st 2; CNOTSpec.permuted sc st 3] /\
    (control <> target ->
     qubits' !! Z.to_nat control
     = Some [CNOTSpec.permuted sc st 0; CNOTSpec.permuted sc st 1]) /\
    (forall k : nat,
        k <> Z.to_nat control -> k <> Z.to_nat target -> qubits' !! k = qubits !! k).
Proof.
  intros Hlen Hshape Hc Ht.
  set (c := Z.to_nat control). set (t := Z.to_nat target).
  assert (Hcn : (c < length qubits)%nat) by lia.
  assert (Htn : (t < length qubits)%nat) by lia.
  destruct (lookup_lt_is_Some_2 qubits c Hcn) as [sc Hsc].
  destruct (lookup_lt_is_Some_2 qubits t Htn) as [st Hst].
  destruct (length_2_inv sc) as (c0 & c1 & ->).
  { eapply (proj1 (Forall_lookup _ _) Hshape); eassumption. }
  destruct (length_2_inv st) as (t0 & t1 & ->).
  { eapply (proj1 (Forall_lookup _ _) Hshape); eassumption. }
  destruct (CNOTSpec_permuted c0 c1 t0 t1) as [Hfirst Hlast].
  exists [c0; c1], [t0; t1]. eexists.
  split; [exact Hsc|]. split; [exact Hst|].
  split.
  { apply (apply_cnot_entries qubits control target c t c0 c1 t0 t1);
      auto using py_index_nonneg. }
  rewrite Hfirst, Hlast.
  split; [rewrite !length_insert; reflexivity|].
  split; [apply list_lookup_insert_eq; rewrite length_insert; exact Htn|].
  split.
  - intros Hne. rewrite list_lookup_insert_ne by (subst c t; lia).
    apply list_lookup_insert_eq. exact Hcn.
  - intros k Hkc Hkt.
    rewrite !list_lookup_insert_ne by congruence. reflexivity.
Qed.

Lemma apply_cnot_spec_witness :
  exists (sc st : array) (qubits' : list array),
    [[C1; C0]; [C0; C1]] !! Z.to_nat 0 = Some sc /\
    [[C1; C0]; [C0; C1]] !! Z.to_nat 1 = Some st /\
    apply_cnot [[C1; C0]; [C0; C1]] 0 1 = Ok qubits' /\
    length qubits' = 2%nat /\
    qubits' !! Z.to_nat 1
    = Some [CNOTSpec.permuted sc st 2; CNOTSpec.permuted sc st 3] /\
    (0%Z <> 1%Z ->
     qubits' !! Z.to_nat 0
     = Some [CNOTSpec.permuted sc st 0; CNOTSpec.permuted sc st 1]) /\
    (forall k : nat,
        k <> Z.to_nat 0 -> k <> Z.to_nat 1 ->
        qubits' !! k = [[C1; C0]; [C0; C1]] !! k).
Proof.
  apply (apply_cnot_spec [[C1; C0]; [C0; C1]] 0 1).
  - simpl. lia.
  - repeat constructor.
  - simpl. lia.
  - simpl. lia.
Defined.

(** C3, as stated, fails when control and target are the same index: the
    second assignment overwrites the first, so the entry of the control is
    not the first two components of CNOT4 . j. *)
Lemma apply_cnot_same_index :
  exists qubits' : list array,
    apply_cnot [[C1; C0]; [C0; C1]] 0 0 = Ok qubits' /\
    qubits' !! 0%nat
    <> Some [CNOTSpec.permuted [C1; C0] [C1; C0] 0;
             CNOTSpec.permuted [C1; C0] [C1; C0] 1].
Proof.
  exists [[C0; C0]; [C0; C1]]. split.
  - py_eval. Carith.
  - destruct (CNOTSpec_permuted C1 C0 C1 C0) as [-> _].
    cbn. intros H. injection H as H _. lra.
Qed.

(** ** apply_gate keeps the norm *)

Lemma norm_squared_parts (a0 a1 : C) :
  norm_squared a0 a1 = Re a0 * Re a0 + Im a0 * Im a0 + (Re a1 * Re a1 + Im a1 * Im a1).
Proof. unfold norm_squared. rewrite !Cabs_sqr. reflexivity. Qed.

Lemma norm_squared_ket0 : norm_squared C1 C0 = 1.
Proof. rewrite norm_squared_parts. cbn. lra. Qed.

Lemma inv_sqrt2_half : / sqrt 2 * / sqrt 2 = 1 / 2.
Proof. pose proof inv_sqrt2_sqr. lra. Qed.

Lemma cos_sin_PI4_unit : cos (PI / 4) * cos (PI / 4) + sin (PI / 4) * sin (PI / 4) = 1.
Proof. pose proof (sin2_cos2 (PI / 4)) as H. unfold Rsqr in H. lra. Qed.

(** Over the exact reals the five gates keep the norm 1. *)
Lemma apply_gate_norm (gate : string) (a0 a1 : C) :
  known_gate gate ->
  norm_squared a0 a1 = 1 ->
  exists b0 b1 : C,
    apply_gate [a0; a1] gate = Ok [b0; b1] /\ norm_squared b0 b1 = 1.
Proof.
  intros Hg Hn. rewrite norm_squared_parts in Hn.
  destruct a0 as [x0 y0], a1 as [x1 y1]. cbn [Re Im] in Hn.
  destruct Hg as [-> | [-> | [-> | [-> | ->]]]];
    unfold apply_gate; cbn [dict_get gates String.eqb Ascii.eqb Bool.eqb];
    rewrite ?T_phase, dot_2x2;
    do 2 eexists; (split; [reflexivity|]);
    rewrite norm_squared_parts;
    unfold Cplus, Cmult, C0, C1, Ci, RtoC, Rdiv; cbn [Re Im].
  - pose proof inv_sqrt2_half as Hr. set (r := / sqrt 2) in *.
    replace (1 * r) with r by ring. replace (-1 * r) with (- r) by ring.
    transitivity (2 * (r * r) * (x0 * x0 + y0 * y0 + (x1 * x1 + y1 * y1))); [ring|].
    rewrite Hr, Hn. lra.
  - lra.
  - lra.
  - lra.
  - pose proof cos_sin_PI4_unit as Hu.
    set (cs := cos (PI * / 4)) in *. set (sn := sin (PI * / 4)) in *.
    transitivity (x0 * x0 + y0 * y0
                  + (cs * cs + sn * sn) * (x1 * x1 + y1 * y1)); [ring|].
    unfold Rdiv in Hu. fold cs sn in Hu. rewrite Hu. lra.
Qed.

(** ** apply_gate and the norm in float64 *)




(** ** The loop of simulate_circuit *)

Lemma map_result_length {A B : Type} (f : A -> result B) (l : list A) (l' : list B) :
  map_result f l = Ok l' -> length l' = length l.
Proof.
  revert l'. induction l as [|x l IH]; intros l'; cbn [map_result].
  - intros [= <-]. reflexivity.
  - destruct (f x) as [y|e]; cbn [bind]; [|discriminate].
    destruct (map_result f l) as [ys|e]; cbn [bind]; [|discriminate].
    intros [= <-]. cbn [length]. f_equal. apply IH. reflexivity.
Qed.

Lemma fold_result_app {S A : Type} (f : S -> A -> result S) (s : S) (l1 l2 : list A) :
  fold_result f s (l1 ++ l2) = let* s' := fold_result f s l1 in fold_result f s' l2.
Proof.
  revert s. induction l1 as [|x l1 IH]; intros s; cbn [fold_result app bind].
  - reflexivity.
  - destruct (f s x) as [s1|e]; cbn [bind]; [apply IH | reflexivity].
Qed.

Lemma apply_cnot_length (qubits qubits' : list array) (control target : Z) :
  apply_cnot qubits control target = Ok qubits' -> length qubits' = length qubits.
Proof.
  unfold apply_cnot. destruct (length qubits <? 2)%nat; [discriminate|].
  destruct (getitem qubits control) as [qc|e]; cbn [bind]; [|discriminate].
  destruct (getitem qubits target) as [qt|e]; cbn [bind]; [|discriminate].
  destruct (dot cnot_matrix (kron qc qt)) as [v|e]; cbn [bind]; [|discriminate].
  destruct (setitem qubits control (take 2 v)) as [qubits1|e] eqn:H1;
    cbn [bind]; [|discriminate].
  intros H2. apply setitem_length in H1, H2. congruence.
Qed.

Lemma step_length (qubits qubits' : list array) (op : operation) :
  step qubits op = Ok qubits' -> length qubits' = length qubits.
Proof.
  destruct op as [i g | name c t |]; cbn [step]; [| |discriminate].
  - destruct (getitem qubits i) as [q|e]; cbn [bind]; [|discriminate].
    destruct (apply_gate q g) as [q'|e]; cbn [bind]; [|discriminate].
    apply setitem_length.
  - destruct (String.eqb name "CNOT"); [|discriminate].
    apply apply_cnot_length.
Qed.

Lemma fold_step_length (ops : list operation) (qubits qubits' : list array) :
  fold_result step qubits ops = Ok qubits' -> length qubits' = length qubits.
Proof.
  revert qubits. induction ops as [|op ops IH]; intros qubits; cbn [fold_result].
  - intros [= <-]. reflexivity.
  - destruct (step qubits op) as [qubits1|e] eqn:H1; cbn [bind]; [|discriminate].
    intros H2. apply IH in H2. apply step_length in H1. congruence.
Qed.

Lemma simulate_circuit_length (labels : list string) (ops : list operation)
      (qubits : list array) :
  simulate_circuit labels ops = Ok qubits -> length qubits = length labels.
Proof.
  unfold simulate_circuit.
  destruct (map_result create_qubit labels) as [qubits0|e] eqn:H0; cbn [bind];
    [|discriminate].
  intros H. apply fold_step_length in H. apply map_result_length in H0. congruence.
Qed.

Lemma simulate_circuit_app (labels : list string) (pre post : list operation) :
  simulate_circuit labels (pre ++ post)
  = let* qubits := simulate_circuit labels pre in fold_result step qubits post.
Proof.
  unfold simulate_circuit.
  destruct (map_result create_qubit labels) as [qubits0|e]; cbn [bind]; [|reflexivity].
  apply fold_result_app.
Qed.






(** ** Negative indices *)


Lemma step_single_qubit (qubits : list array) (qubit_idx : Z) (gate : string) (k : nat) :
  py_index (length qubits) qubit_idx = Ok k ->
  exists q : array,
    qubits !! k = Some q /\
    step qubits (SingleQubitOp qubit_idx gate)
    = (let* q' := apply_gate q gate in Ok (<[k := q']> qubits)).
Proof.
  intros Hk. destruct (getitem_Ok qubits qubit_idx k Hk) as (q & Hq & Hget).
  exists q. split; [exact Hq|].
  cbn [step]. rewrite Hget. cbn [bind].
  destruct (apply_gate q gate) as [q'|e]; cbn [bind]; [|reflexivity].
  apply setitem_Ok. exact Hk.
Qed.



(** ** Over exact arithmetic, runs without CNOT keep the probabilities summing to 1

    The qubits made by create_qubit have norm 1, the five gates keep it, and
    the squared magnitudes of a Kronecker product sum to the product of the
    sums.  So the sum of the probabilities can leave 1 only through
    apply_cnot. *)

Lemma Rsum_app (l1 l2 : list R) : Rsum (l1 ++ l2) = Rsum l1 + Rsum l2.
Proof.
  induction l1 as [|x l1 IH]; cbn [Rsum fold_right app].
  - unfold Rsum. lra.
  - fold (Rsum (l1 ++ l2)) (Rsum l1). rewrite IH. lra.
Qed.

Lemma Cabs_sqr_mult (z w : C) : Cabs (Cmult z w) ^ 2 = Cabs z ^ 2 * Cabs w ^ 2.
Proof. rewrite !Cabs_sqr. destruct z, w. cbn [Cmult Re Im]. ring. Qed.

Lemma abs_squared_scale (x : C) (b : array) :
  Rsum (abs_squared (map (Cmult x) b)) = Cabs x ^ 2 * Rsum (abs_squared b).
Proof.
  induction b as [|y b IH]; cbn [map abs_squared Rsum fold_right].
  - lra.
  - fold (abs_squared (map (Cmult x) b)) (abs_squared b).
    fold (Rsum (abs_squared (map (Cmult x) b))) (Rsum (abs_squared b)).
    rewrite IH, Cabs_sqr_mult. ring.
Qed.

Lemma abs_squared_kron (a b : array) :
  Rsum (abs_squared (kron a b)) = Rsum (abs_squared a) * Rsum (abs_squared b).
Proof.
  induction a as [|x a IH]; cbn [kron flat_map].
  - cbn. lra.
  - fold (kron a b). unfold abs_squared at 1. rewrite map_app.
    fold (abs_squared (map (Cmult x) b)) (abs_squared (kron a b)).
    rewrite Rsum_app, abs_squared_scale, IH.
    cbn [abs_squared map Rsum fold_right].
    fold (abs_squared a). fold (Rsum (abs_squared a)). ring.
Qed.

Lemma normalized_sum (q : array) : normalized q -> Rsum (abs_squared q) = 1.
Proof.
  intros (a0 & a1 & -> & Hn). unfold norm_squared in Hn.
  cbn [abs_squared map Rsum fold_right]. lra.
Qed.

Lemma abs_squared_fold_kron (rest : list array) (q0 : array) :
  Forall normalized rest ->
  Rsum (abs_squared (fold_left kron rest q0)) = Rsum (abs_squared q0).
Proof.
  intros Hrest. revert q0.
  induction Hrest as [|q rest Hq _ IH]; intros q0; cbn [fold_left].
  - reflexivity.
  - rewrite IH, abs_squared_kron, (normalized_sum q Hq). lra.
Qed.

Lemma create_qubit_normalized (label : string) (q : array) :
  create_qubit label = Ok q -> normalized q.
Proof.
  unfold create_qubit, normalized.
  repeat match goal with
         | |- context [String.eqb label ?s] => destruct (String.eqb label s)
         end; intros [= <-]; do 2 eexists; (split; [reflexivity|]);
    rewrite norm_squared_parts; cbn [Re Im RtoC C0 C1];
    pose proof inv_sqrt2_half as Hr; unfold Rdiv in *; nra.
Qed.

Lemma map_create_qubit_normalized (labels : list string) (qubits : list array) :
  map_result create_qubit labels = Ok qubits -> Forall normalized qubits.
Proof.
  revert qubits. induction labels as [|label labels IH]; intros qubits;
    cbn [map_result].
  - intros [= <-]. constructor.
  - destruct (create_qubit label) as [q|e] eqn:Hq; cbn [bind]; [|discriminate].
    destruct (map_result create_qubit labels) as [qs|e]; cbn [bind]; [|discriminate].
    intros [= <-]. constructor; [eapply create_qubit_normalized; eassumption | auto].
Qed.

Lemma apply_gate_normalized (q q' : array) (gate : string) :
  normalized q -> apply_gate q gate = Ok q' -> normalized q'.
Proof.
  intros (a0 & a1 & -> & Hn) Hg.
  destruct (dict_get gates gate) as [g|] eqn:Hd.
  - assert (Hk : known_gate gate).
    { eapply dict_get_gates_Some. exact Hd. }
    destruct (apply_gate_norm gate a0 a1 Hk Hn) as (b0 & b1 & Hb & Hnb).
    rewrite Hb in Hg. injection Hg as <-. exists b0, b1. auto.
  - unfold apply_gate in Hg. rewrite Hd in Hg. discriminate.
Qed.

Lemma step_normalized (qubits qubits' : list array) (op : operation) :
  cnot_free op -> Forall normalized qubits ->
  step qubits op = Ok qubits' -> Forall normalized qubits'.
Proof.
  destruct op as [i g | |]; cbn [cnot_free]; [|contradiction..].
  intros _ Hall. cbn [step]. unfold getitem, setitem.
  destruct (py_index (length qubits) i) as [k|e]; cbn [bind]; [|discriminate].
  destruct (qubits !! k) as [q|] eqn:Hq; cbn [bind]; [|discriminate].
  destruct (apply_gate q g) as [q'|e] eqn:Hg; cbn [bind]; [|discriminate].
  intros [= <-]. apply Forall_insert; [exact Hall|].
  eapply apply_gate_normalized; [|exact Hg].
  eapply (proj1 (Forall_lookup _ _) Hall); eassumption.
Qed.

Lemma fold_step_normalized (ops : list operation) (qubits qubits' : list array) :
  Forall cnot_free ops -> Forall normalized qubits ->
  fold_result step qubits ops = Ok qubits' -> Forall normalized qubits'.
Proof.
  intros Hops. revert qubits.
  induction Hops as [|op ops Hop _ IH]; intros qubits Hall; cbn [fold_result].
  - intros [= <-]. exact Hall.
  - destruct (step qubits op) as [qubits1|e] eqn:Hs; cbn [bind]; [|discriminate].
    apply IH. eapply step_normalized; eassumption.
Qed.

Lemma calculate_probabilities_normalized (qubits : list array) (probabilities : list R) :
  Forall normalized qubits ->
  calculate_probabilities qubits = Ok probabilities -> Rsum probabilities = 1.
Proof.
  intros Hall. destruct Hall as [|q0 rest Hq0 Hrest]; [discriminate|].
  unfold calculate_probabilities.
  destruct rest as [|q1 rest].
  - cbn. intros [= <-]. apply normalized_sum in Hq0. exact Hq0.
  - cbn [length Nat.eqb]. unfold getitem. cbn [py_index length bind].
    change (drop 1 (q0 :: q1 :: rest)) with (q1 :: rest).
    cbn. intros [= <-].
    fold (abs_squared (fold_left kron rest (kron q0 q1))).
    change (fold_left kron rest (kron q0 q1)) with (fold_left kron (q1 :: rest) q0).
    rewrite abs_squared_fold_kron by exact Hrest.
    apply normalized_sum. exact Hq0.
Qed.

(** Without CNOT the sum of the probabilities of a successful run is 1. *)
Lemma probabilities_sum_without_cnot
      (labels : list string) (ops : list operation)
      (qubits : list array) (probabilities : list R) :
  Forall cnot_free ops ->
  simulate_circuit labels ops = Ok qubits ->
  calculate_probabilities qubits = Ok probabilities ->
  Rsum probabilities = 1.
Proof.
  intros Hops Hrun. unfold simulate_circuit in Hrun.
  destruct (map_result create_qubit labels) as [qubits0|e] eqn:H0; cbn [bind] in Hrun;
    [|discriminate].
  apply calculate_probabilities_normalized.
  eapply fold_step_normalized; [exact Hops| |exact Hrun].
  eapply map_create_qubit_normalized. exact H0.
Qed.

(** ** The runs of test_project.py *)

Example apply_gate_ket0_X : apply_gate [C1; C0] "X" = Ok [C0; C1].
Proof. py_eval. Carith. Qed.

Example apply_gate_ket0_Z : apply_gate [C1; C0] "Z" = Ok [C1; C0].
Proof. py_eval. Carith. Qed.

Example apply_gate_ket0_H :
  apply_gate [C1; C0] "H" = Ok [RtoC (1 / sqrt 2); RtoC (1 / sqrt 2)].
Proof. py_eval. Carith. Qed.

(** test_simulate_circuit: H on qubit 0, then CNOT 0 1, from the labels 0
    and 1.  The run returns (0, 1/sqrt 2) and (1/sqrt 2, 0). *)
Example simulate_circuit_H_CNOT :
  simulate_circuit ["0"; "1"]%string [SingleQubitOp 0 "H"; TwoQubitOp "CNOT" 0 1]
  = Ok [[C0; RtoC (1 / sqrt 2)]; [RtoC (1 / sqrt 2); C0]].
Proof. py_eval. Carith. Qed.

Example simulate_circuit_last_qubit :
  simulate_circuit ["0"; "1"]%string [SingleQubitOp (-1) "X"] = Ok [[C1; C0]; [C1; C0]].
Proof. py_eval. Carith. Qed.

Example simulate_circuit_bad_label :
  simulate_circuit ["0"; "2"]%string [SingleQubitOp 5 "H"] = Err (ValueError UnknownState).
Proof. reflexivity. Qed.

Example simulate_circuit_bad_gate_first :
  simulate_circuit ["0"%string] [SingleQubitOp 0 "Q"; SingleQubitOp 1 "H"]
  = Err (ValueError UnknownGate).
Proof. reflexivity. Qed.

(** ** Shapes: every qubit of a run is an array of two amplitudes *)

Lemma known_gateb_spec (gate : string) : known_gateb gate = true <-> known_gate gate.
Proof.
  unfold known_gateb, known_gate. cbn [existsb].
  rewrite !orb_true_iff, !String.eqb_eq. intuition discriminate.
Qed.

Lemma known_gateb_false (gate : string) : known_gateb gate = false -> ~ known_gate gate.
Proof. intros Hf Hk. apply known_gateb_spec in Hk. congruence. Qed.

Lemma valid_index_py_index (n : nat) (i : Z) : is_ok (py_index n i) = valid_index n i.
Proof.
  unfold py_index, valid_index.
  destruct (0 <=? i)%Z eqn:H0, (i <? Z.of_nat n)%Z eqn:Hn,
           (- Z.of_nat n <=? i)%Z eqn:Hlo, (i <? 0)%Z eqn:Hneg;
    cbn [andb is_ok]; try reflexivity;
    rewrite ?Z.leb_le, ?Z.leb_gt, ?Z.ltb_lt, ?Z.ltb_ge in *; lia.
Qed.

Lemma valid_index_Ok (n : nat) (i : Z) :
  valid_index n i = true -> exists k, py_index n i = Ok k /\ (k < n)%nat.
Proof.
  rewrite <- valid_index_py_index.
  destruct (py_index n i) as [k|e] eqn:Hk; [|discriminate].
  intros _. exists k. split; [reflexivity|]. eapply py_index_Ok; eassumption.
Qed.

Lemma valid_index_Err (n : nat) (i : Z) :
  valid_index n i = false -> py_index n i = Err IndexError.
Proof.
  rewrite <- valid_index_py_index.
  destruct (py_index n i) as [k|e] eqn:Hk; [discriminate|].
  intros _. apply py_index_Err in Hk. congruence.
Qed.

Lemma create_qubit_is_ok (label : string) : is_ok (create_qubit label) = valid_state label.
Proof.
  unfold create_qubit, valid_state. cbn [existsb].
  repeat match goal with
         | |- context [String.eqb label ?s] => destruct (String.eqb label s)
         end; reflexivity.
Qed.

Lemma create_qubit_Err (label : string) (e : exn) :
  create_qubit label = Err e -> e = ValueError UnknownState.
Proof.
  unfold create_qubit.
  repeat match goal with
         | |- context [String.eqb label ?s] => destruct (String.eqb label s)
         end; congruence.
Qed.

Lemma create_qubit_two_amplitudes (label : string) (q : array) :
  create_qubit label = Ok q -> two_amplitudes q.
Proof.
  unfold create_qubit, two_amplitudes.
  repeat match goal with
         | |- context [String.eqb label ?s] => destruct (String.eqb label s)
         end; intros [= <-]; reflexivity.
Qed.

Lemma map_create_qubit_two_amplitudes (labels : list string) (qubits : list array) :
  map_result create_qubit labels = Ok qubits -> Forall two_amplitudes qubits.
Proof.
  revert qubits. induction labels as [|label labels IH]; intros qubits;
    cbn [map_result].
  - intros [= <-]. constructor.
  - destruct (create_qubit label) as [q|e] eqn:Hq; cbn [bind]; [|discriminate].
    destruct (map_result create_qubit labels) as [qs|e]; cbn [bind]; [|discriminate].
    intros [= <-]. constructor; [eapply create_qubit_two_amplitudes; eassumption | auto].
Qed.

Lemma map_create_qubit_is_ok (labels : list string) :
  is_ok (map_result create_qubit labels) = forallb valid_state labels.
Proof.
  induction labels as [|label labels IH]; cbn [map_result forallb]; [reflexivity|].
  rewrite <- create_qubit_is_ok, <- IH.
  destruct (create_qubit label); cbn [bind is_ok andb]; [|reflexivity].
  destruct (map_result create_qubit labels); reflexivity.
Qed.

Lemma map_create_qubit_Err (labels : list string) (e : exn) :
  map_result create_qubit labels = Err e -> e = ValueError UnknownState.
Proof.
  induction labels as [|label labels IH]; cbn [map_result]; [discriminate|].
  destruct (create_qubit label) as [q|e'] eqn:Hq; cbn [bind].
  - destruct (map_result create_qubit labels) as [qs|e']; cbn [bind]; [discriminate|].
    intros [= <-]. apply IH. reflexivity.
  - intros [= <-]. eapply create_qubit_Err; eassumption.
Qed.

Lemma apply_gate_two_amplitudes (q : array) (gate : string) :
  two_amplitudes q ->
  if known_gateb gate
  then exists q' : array, apply_gate q gate = Ok q' /\ two_amplitudes q'
  else apply_gate q gate = Err (ValueError UnknownGate).
Proof.
  intros Hq. destruct (length_2_inv q Hq) as (a0 & a1 & ->).
  destruct (known_gateb gate) eqn:Hk.
  - apply known_gateb_spec in Hk.
    destruct (dict_get_gates_known gate Hk) as (a & b & c & d & Hd).
    unfold apply_gate. rewrite Hd, dot_2x2. eexists. split; reflexivity.
  - unfold apply_gate.
    rewrite dict_get_gates_unknown by (apply known_gateb_false; exact Hk).
    reflexivity.
Qed.

Lemma apply_cnot_valid (qubits : list array) (control target : Z) :
  Forall two_amplitudes qubits ->
  (2 <= length qubits)%nat ->
  valid_index (length qubits) control = true ->
  valid_index (length qubits) target = true ->
  exists qubits' : list array,
    apply_cnot qubits control target = Ok qubits' /\ Forall two_amplitudes qubits'.
Proof.
  intros Hall Hlen Hc Ht.
  destruct (valid_index_Ok _ _ Hc) as (c & Hpc & Hcn).
  destruct (valid_index_Ok _ _ Ht) as (t & Hpt & Htn).
  destruct (lookup_lt_is_Some_2 qubits c Hcn) as [sc Hsc].
  destruct (lookup_lt_is_Some_2 qubits t Htn) as [st Hst].
  destruct (length_2_inv sc) as (c0 & c1 & ->).
  { eapply (proj1 (Forall_lookup _ _) Hall); eassumption. }
  destruct (length_2_inv st) as (t0 & t1 & ->).
  { eapply (proj1 (Forall_lookup _ _) Hall); eassumption. }
  eexists. split.
  - apply (apply_cnot_entries qubits control target c t c0 c1 t0 t1); assumption.
  - apply Forall_insert; [apply Forall_insert; [exact Hall|]|]; reflexivity.
Qed.

Lemma apply_cnot_invalid (qubits : list array) (control target : Z) :
  (length qubits <? 2)%nat = true
  \/ valid_index (length qubits) control = false
  \/ valid_index (length qubits) target = false ->
  exists e, apply_cnot qubits control target = Err e /\
            (e = ValueError TooFewQubits \/ e = IndexError).
Proof.
  intros H. unfold apply_cnot.
  destruct (length qubits <? 2)%nat eqn:Hlen; [eauto|].
  destruct H as [H | H]; [discriminate|].
  unfold getitem.
  destruct (py_index (length qubits) control) as [c|e] eqn:Hc; cbn [bind].
  - destruct (qubits !! c) as [qc|]; cbn [bind]; [|eauto].
    destruct H as [H | H].
    + apply valid_index_Err in H. congruence.
    + apply valid_index_Err in H. rewrite H. cbn [bind]. eauto.
  - apply py_index_Err in Hc as ->. eauto.
Qed.

(** One iteration of the loop on a list of two-amplitude qubits: it succeeds
    exactly on the valid operations, keeps the shape, and raises nothing but
    the unknown-gate, unsupported-gate and too-few-qubits ValueErrors and
    IndexError. *)
Lemma step_shape (qubits : list array) (op : operation) :
  Forall two_amplitudes qubits ->
  if valid_operation (length qubits) op
  then exists qubits' : list array,
      step qubits op = Ok qubits' /\ Forall two_amplitudes qubits'
  else exists e, step qubits op = Err e /\ e <> ValueError ShapesNotAligned
                 /\ e <> ValueError UnknownState.
Proof.
  intros Hall. destruct op as [i g | name c t |]; cbn [valid_operation step].
  - destruct (valid_index (length qubits) i) eqn:Hi; cbn [andb].
    + destruct (valid_index_Ok _ _ Hi) as (k & Hk & Hkn).
      destruct (step_single_qubit qubits i g k Hk) as (q & Hq & Hs).
      cbn [step] in Hs. rewrite Hs.
      assert (Hq2 : two_amplitudes q).
      { eapply (proj1 (Forall_lookup _ _) Hall); eassumption. }
      pose proof (apply_gate_two_amplitudes q g Hq2) as Hg.
      destruct (known_gateb g).
      * destruct Hg as (q' & -> & Hq'). cbn [bind]. eexists. split; [reflexivity|].
        apply Forall_insert; assumption.
      * rewrite Hg. cbn [bind]. eexists. split; [reflexivity|].
        split; discriminate.
    + unfold getitem. rewrite (valid_index_Err _ _ Hi). cbn [bind].
      eexists. split; [reflexivity|]. split; discriminate.
  - destruct (String.eqb name "CNOT"); cbn [andb].
    + destruct (2 <=? length qubits)%nat eqn:Hlen; cbn [andb].
      * apply Nat.leb_le in Hlen.
        destruct (valid_index (length qubits) c) eqn:Hc; cbn [andb].
        -- destruct (valid_index (length qubits) t) eqn:Ht.
           ++ apply apply_cnot_valid; assumption.
           ++ destruct (apply_cnot_invalid qubits c t) as (e & -> & He); [auto|].
              exists e. split; [reflexivity|]. destruct He as [-> | ->]; split; discriminate.
        -- destruct (apply_cnot_invalid qubits c t) as (e & -> & He); [auto|].
           exists e. split; [reflexivity|]. destruct He as [-> | ->]; split; discriminate.
      * apply Nat.leb_gt in Hlen.
        destruct (apply_cnot_invalid qubits c t) as (e & -> & He).
        { left. apply Nat.ltb_lt. exact Hlen. }
        exists e. split; [reflexivity|]. destruct He as [-> | ->]; split; discriminate.
    + eexists. split; [reflexivity|]. split; discriminate.
  - eexists. split; [reflexivity|]. split; discriminate.
Qed.

Lemma fold_step_shape (ops : list operation) (qubits : list array) :
  Forall two_amplitudes qubits ->
  if forallb (valid_operation (length qubits)) ops
  then exists qubits' : list array,
      fold_result step qubits ops = Ok qubits' /\ Forall two_amplitudes qubits'
  else exists e, fold_result step qubits ops = Err e
                 /\ e <> ValueError ShapesNotAligned /\ e <> ValueError UnknownState.
Proof.
  revert qubits. induction ops as [|op ops IH]; intros qubits Hall;
    cbn [forallb fold_result].
  - eauto.
  - pose proof (step_shape qubits op Hall) as Hs.
    destruct (valid_operation (length qubits) op); cbn [andb].
    + destruct Hs as (qubits1 & Hs & Hall1). rewrite Hs. cbn [bind].
      rewrite <- (step_length _ _ _ Hs). apply IH. exact Hall1.
    + destruct Hs as (e & -> & He). cbn [bind]. eauto.
Qed.

(** ** What a run returns and what it raises *)

Lemma simulate_circuit_shape (labels : list string) (ops : list operation) :
  if forallb valid_state labels
  then if forallb (valid_operation (length labels)) ops
       then exists qubits : list array,
           simulate_circuit labels ops = Ok qubits /\ Forall two_amplitudes qubits
       else exists e, simulate_circuit labels ops = Err e
                      /\ e <> ValueError ShapesNotAligned /\ e <> ValueError UnknownState
  else simulate_circuit labels ops = Err (ValueError UnknownState).
Proof.
  unfold simulate_circuit. rewrite <- map_create_qubit_is_ok.
  destruct (map_result create_qubit labels) as [qubits0|e] eqn:H0; cbn [is_ok bind].
  - rewrite <- (map_result_length _ _ _ H0).
    apply fold_step_shape. eapply map_create_qubit_two_amplitudes. exact H0.
  - apply map_create_qubit_Err in H0 as ->. reflexivity.
Qed.

Lemma simulate_circuit_two_amplitudes
      (labels : list string) (ops : list operation) (qubits : list array) :
  simulate_circuit labels ops = Ok qubits -> Forall two_amplitudes qubits.
Proof.
  intros Hrun. pose proof (simulate_circuit_shape labels ops) as H.
  destruct (forallb valid_state labels); [|congruence].
  destruct (forallb (valid_operation (length labels)) ops).
  - destruct H as (qubits' & H & Hall). congruence.
  - destruct H as (e & H & _). congruence.
Qed.

(** X1.  simulate_circuit returns a list exactly when every label is one of
    0, 1, +, - and every operation is valid for the number of qubits: a pair
    with a Python-valid index and one of the five gate names, or a CNOT
    triple with two Python-valid indices on at least two qubits. *)
Theorem simulate_circuit_succeeds_iff (labels : list string) (ops : list operation) :
  is_ok (simulate_circuit labels ops)
  = forallb valid_state labels && forallb (valid_operation (length labels)) ops.
Proof.
  pose proof (simulate_circuit_shape labels ops) as H.
  destruct (forallb valid_state labels); cbn [andb].
  - destruct (forallb (valid_operation (length labels)) ops).
    + destruct H as (qubits & -> & _). reflexivity.
    + destruct H as (e & -> & _). reflexivity.
  - rewrite H. reflexivity.
Qed.

(** X2.  A successful run returns as many qubits as there were labels, each
    an array of exactly two amplitudes, whatever mix of gates and CNOTs was
    applied. *)
Theorem simulate_circuit_result_shape
        (labels : list string) (ops : list operation) (qubits : list array) :
  simulate_circuit labels ops = Ok qubits ->
  length qubits = length labels /\ Forall two_amplitudes qubits.
Proof.
  intros Hrun. split; [eapply simulate_circuit_length; exact Hrun|].
  eapply simulate_circuit_two_amplitudes. exact Hrun.
Qed.

Lemma simulate_circuit_result_shape_witness :
  length [[C1; C0]; [C1; C0]] = length ["0"; "1"]%string
  /\ Forall two_amplitudes [[C1; C0]; [C1; C0]].
Proof.
  apply (simulate_circuit_result_shape ["0"; "1"]%string [SingleQubitOp (-1) "X"]).
  exact simulate_circuit_last_qubit.
Defined.

(** X3.  The only exceptions of simulate_circuit are the four ValueErrors
    of project.py (unknown state, unknown gate, unsupported gate, too few
    qubits for CNOT) and IndexError; numpy's shape error cannot occur, since
    np.dot is only ever called on a 2x2 matrix with a two-element array and
    on the 4x4 matrix with a four-element array. *)
Theorem simulate_circuit_exceptions
        (labels : list string) (ops : list operation) (e : exn) :
  simulate_circuit labels ops = Err e ->
  e = ValueError UnknownState \/ e = ValueError UnknownGate
  \/ e = ValueError UnsupportedGate \/ e = ValueError TooFewQubits
  \/ e = IndexError.
Proof.
  intros Hrun. pose proof (simulate_circuit_shape labels ops) as H.
  destruct (forallb valid_state labels).
  - destruct (forallb (valid_operation (length labels)) ops).
    + destruct H as (qubits & H & _). congruence.
    + destruct H as (e' & H & Hs & _).
      assert (e' = e) by congruence. subst e'.
      destruct e as [[]|]; tauto.
  - left. congruence.
Qed.

Lemma simulate_circuit_exceptions_witness :
  ValueError TooFewQubits = ValueError UnknownState
  \/ ValueError TooFewQubits = ValueError UnknownGate
  \/ ValueError TooFewQubits = ValueError UnsupportedGate
  \/ ValueError TooFewQubits = ValueError TooFewQubits
  \/ ValueError TooFewQubits = IndexError.
Proof.
  apply (simulate_circuit_exceptions ["0"%string] [TwoQubitOp "CNOT" 0 1]).
  reflexivity.
Defined.

(** X4.  The labels are turned into qubits before any operation is looked
    at: the run raises the unknown-state ValueError exactly when some label is
    not one of 0, 1, +, -, whatever the operations are. *)
Theorem simulate_circuit_unknown_state (labels : list string) (ops : list operation) :
  simulate_circuit labels ops = Err (ValueError UnknownState)
  <-> forallb valid_state labels = false.
Proof.
  pose proof (simulate_circuit_shape labels ops) as H.
  destruct (forallb valid_state labels).
  - split; [|discriminate].
    destruct (forallb (valid_operation (length labels)) ops).
    + destruct H as (qubits & -> & _). discriminate.
    + destruct H as (e & -> & _ & He). congruence.
  - split; auto.
Qed.

Lemma simulate_circuit_unknown_state_witness :
  simulate_circuit ["0"; "2"]%string [SingleQubitOp 5 "H"] = Err (ValueError UnknownState).
Proof.
  apply (proj2 (simulate_circuit_unknown_state ["0"; "2"]%string [SingleQubitOp 5 "H"])).
  reflexivity.
Defined.

(** X5.  Fail-fast: once a program raises, no operation appended to it is
    looked at; the longer program raises the same exception. *)
Theorem simulate_circuit_first_error
        (labels : list string) (pre post : list operation) (e : exn) :
  simulate_circuit labels pre = Err e ->
  simulate_circuit labels (pre ++ post) = Err e.
Proof.
  intros Hpre. rewrite simulate_circuit_app, Hpre. reflexivity.
Qed.

Lemma simulate_circuit_first_error_witness :
  simulate_circuit ["0"%string]
                   ([SingleQubitOp 0 "Q"; SingleQubitOp 1 "H"] ++ [SingleQubitOp 0 "X"])
  = Err (ValueError UnknownGate).
Proof.
  apply (simulate_circuit_first_error
           ["0"%string] [SingleQubitOp 0 "Q"; SingleQubitOp 1 "H"] [SingleQubitOp 0 "X"]).
  reflexivity.
Defined.

(** ** How the gates compose *)

(** X6.  X and Z undo themselves and S applied twice is Z, on every array
    of two amplitudes.  Only products with 0, 1, -1 and i and sums with 0
    occur, so numpy's float64 arithmetic gives the same numbers for finite
    amplitudes. *)
Theorem apply_gate_exact_compositions (a0 a1 : C) :
  (let* q := apply_gate [a0; a1] "X" in apply_gate q "X") = Ok [a0; a1]
  /\ (let* q := apply_gate [a0; a1] "Z" in apply_gate q "Z") = Ok [a0; a1]
  /\ (let* q := apply_gate [a0; a1] "S" in apply_gate q "S") = apply_gate [a0; a1] "Z".
Proof.
  destruct a0 as [x0 y0], a1 as [x1 y1].
  repeat split;
    unfold apply_gate; cbn [dict_get gates String.eqb Ascii.eqb Bool.eqb];
    rewrite !dot_2x2; cbn [bind]; rewrite dot_2x2;
    unfold Cplus, Cmult, C0, C1, Ci, RtoC; cbn [Re Im];
    split_entries; lra.
Qed.

(** ** Operations on different qubits, and indices counted from the end *)

Lemma py_index_mod (n : nat) (i : Z) :
  valid_index n i = true ->
  py_index n i = Ok (Z.to_nat (i mod Z.of_nat n))
  /\ py_index n (i mod Z.of_nat n) = Ok (Z.to_nat (i mod Z.of_nat n)).
Proof.
  unfold valid_index. intros H. apply andb_true_iff in H as [Hlo Hhi].
  apply Z.leb_le in Hlo. apply Z.ltb_lt in Hhi.
  assert (Hn : (0 < Z.of_nat n)%Z) by lia.
  pose proof (Z.mod_pos_bound i (Z.of_nat n) Hn) as Hb.
  split; [|apply py_index_nonneg; exact Hb].
  destruct (Z_lt_le_dec i 0) as [Hneg|Hpos].
  - rewrite py_index_negative by lia. do 2 f_equal.
    apply (Z.mod_unique i (Z.of_nat n) (-1)); lia.
  - rewrite py_index_nonneg by lia. do 2 f_equal.
    symmetry. apply Z.mod_small. lia.
Qed.

Lemma step_two_single_qubit
      (qubits : list array) (i j : Z) (g h : string) (a b : nat) (qi qj : array) :
  py_index (length qubits) i = Ok a ->
  py_index (length qubits) j = Ok b ->
  a <> b ->
  qubits !! a = Some qi ->
  qubits !! b = Some qj ->
  fold_result step qubits [SingleQubitOp i g; SingleQubitOp j h]
  = (let* qi' := apply_gate qi g in
     let* qj' := apply_gate qj h in
     Ok (<[b := qj']> (<[a := qi']> qubits))).
Proof.
  intros Ha Hb Hab Hqi Hqj. cbn [fold_result].
  destruct (step_single_qubit qubits i g a Ha) as (q & Hq & ->).
  rewrite Hqi in Hq. injection Hq as <-.
  destruct (apply_gate qi g) as [qi'|e]; cbn [bind]; [|reflexivity].
  destruct (step_single_qubit (<[a := qi']> qubits) j h b) as (q & Hq & ->).
  { rewrite length_insert. exact Hb. }
  rewrite list_lookup_insert_ne in Hq by exact Hab.
  rewrite Hqj in Hq. injection Hq as <-.
  destruct (apply_gate qj h) as [qj'|e]; reflexivity.
Qed.

(** X9.  Two neighbouring single-qubit operations on different qubits can
    be swapped anywhere in a program: the run returns the same list, or
    raises the same exception.  The indices may count from the end. *)
Theorem single_qubit_ops_commute
        (labels : list string) (pre post : list operation) (i j : Z) (g h : string) :
  valid_index (length labels) i = true ->
  valid_index (length labels) j = true ->
  (i mod Z.of_nat (length labels) <> j mod Z.of_nat (length labels))%Z ->
  simulate_circuit labels (pre ++ [SingleQubitOp i g; SingleQubitOp j h] ++ post)
  = simulate_circuit labels (pre ++ [SingleQubitOp j h; SingleQubitOp i g] ++ post).
Proof.
  intros Hi Hj Hne. rewrite !simulate_circuit_app.
  destruct (simulate_circuit labels pre) as [qubits|e] eqn:Hpre; cbn [bind];
    [|reflexivity].
  pose proof (simulate_circuit_two_amplitudes _ _ _ Hpre) as Hall.
  apply simulate_circuit_length in Hpre.
  rewrite !fold_result_app. f_equal.
  destruct (py_index_mod _ _ Hi) as [Ha _]. destruct (py_index_mod _ _ Hj) as [Hb _].
  set (a := Z.to_nat (i mod Z.of_nat (length labels))) in *.
  set (b := Z.to_nat (j mod Z.of_nat (length labels))) in *.
  assert (Hab : a <> b).
  { subst a b. intros Heq. apply Hne.
    apply Z2Nat.inj in Heq; [exact Heq| |];
      apply Z.mod_pos_bound; unfold valid_index in Hi;
      apply andb_true_iff in Hi as [Hlo Hhi];
      apply Z.leb_le in Hlo; apply Z.ltb_lt in Hhi; lia. }
  rewrite <- Hpre in Ha, Hb.
  destruct (lookup_lt_is_Some_2 qubits a (py_index_Ok _ _ _ Ha)) as [qi Hqi].
  destruct (lookup_lt_is_Some_2 qubits b (py_index_Ok _ _ _ Hb)) as [qj Hqj].
  rewrite (step_two_single_qubit qubits i j g h a b qi qj) by auto.
  rewrite (step_two_single_qubit qubits j i h g b a qj qi) by auto.
  pose proof (apply_gate_two_amplitudes qi g
                (proj1 (Forall_lookup _ _) Hall a qi Hqi)) as Hg.
  pose proof (apply_gate_two_amplitudes qj h
                (proj1 (Forall_lookup _ _) Hall b qj Hqj)) as Hh.
  destruct (known_gateb g), (known_gateb h).
  - destruct Hg as (qi' & -> & _), Hh as (qj' & -> & _). cbn [bind].
    f_equal. apply list_insert_insert_ne. congruence.
  - destruct Hg as (qi' & -> & _). rewrite Hh. reflexivity.
  - destruct Hh as (qj' & -> & _). rewrite Hg. reflexivity.
  - rewrite Hg, Hh. reflexivity.
Qed.

Lemma single_qubit_ops_commute_witness :
  simulate_circuit ["0"; "1"]%string
                   ([] ++ [SingleQubitOp 0 "H"; SingleQubitOp (-1) "X"] ++ [])
  = simulate_circuit ["0"; "1"]%string
                     ([] ++ [SingleQubitOp (-1) "X"; SingleQubitOp 0 "H"] ++ []).
Proof.
  apply (single_qubit_ops_commute ["0"; "1"]%string [] [] 0 (-1) "H" "X").
  - reflexivity.
  - reflexivity.
  - vm_compute. discriminate.
Defined.

Lemma getitem_mod {A : Type} (l : list A) (i : Z) :
  valid_index (length l) i = true ->
  getitem l (i mod Z.of_nat (length l)) = getitem l i.
Proof.
  intros Hi. destruct (py_index_mod _ _ Hi) as [H1 H2].
  unfold getitem. rewrite H1, H2. reflexivity.
Qed.

Lemma setitem_mod {A : Type} (l : list A) (n : nat) (i : Z) (x : A) :
  length l = n ->
  valid_index n i = true ->
  setitem l (i mod Z.of_nat n) x = setitem l i x.
Proof.
  intros <- Hi. destruct (py_index_mod _ _ Hi) as [H1 H2].
  unfold setitem. rewrite H1, H2. reflexivity.
Qed.

(** X10.  apply_cnot takes indices counted from the end like any Python
    list access: with n qubits and -n <= control, target < n, it does what
    it does for the indices control mod n and target mod n. *)
Theorem apply_cnot_negative_indices (qubits : list array) (control target : Z) :
  valid_index (length qubits) control = true ->
  valid_index (length qubits) target = true ->
  apply_cnot qubits control target
  = apply_cnot qubits (control mod Z.of_nat (length qubits))
               (target mod Z.of_nat (length qubits)).
Proof.
  intros Hc Ht. unfold apply_cnot.
  destruct (length qubits <? 2)%nat; [reflexivity|].
  rewrite !getitem_mod by assumption.
  destruct (getitem qubits control) as [qc|e]; cbn [bind]; [|reflexivity].
  destruct (getitem qubits target) as [qt|e]; cbn [bind]; [|reflexivity].
  destruct (dot cnot_matrix (kron qc qt)) as [v|e]; cbn [bind]; [|reflexivity].
  rewrite (setitem_mod qubits (length qubits)) by auto.
  destruct (setitem qubits control (take 2 v)) as [qubits1|e] eqn:H1; cbn [bind];
    [|reflexivity].
  apply setitem_length in H1.
  rewrite (setitem_mod qubits1 (length qubits)) by auto. reflexivity.
Qed.

Lemma apply_cnot_negative_indices_witness :
  apply_cnot [[C1; C0]; [C0; C1]] (-2) (-1)
  = apply_cnot [[C1; C0]; [C0; C1]] (-2 mod Z.of_nat 2) (-1 mod Z.of_nat 2).
Proof.
  apply (apply_cnot_negative_indices [[C1; C0]; [C0; C1]] (-2) (-1)); reflexivity.
Defined.

(** ** The array of probabilities *)

Lemma calculate_probabilities_cons (q0 : array) (rest : list array) :
  calculate_probabilities (q0 :: rest) = Ok (abs_squared (fold_left kron rest q0)).
Proof.
  unfold calculate_probabilities. destruct rest as [|q1 rest]; reflexivity.
Qed.

Lemma kron_length (a b : array) : length (kron a b) = (length a * length b)%nat.
Proof.
  induction a as [|x a IH]; cbn [kron flat_map length]; [reflexivity|].
  fold (kron a b). rewrite length_app, length_map, IH. cbn [Nat.mul]. reflexivity.
Qed.

Lemma fold_kron_length (rest : list array) (q0 : array) :
  Forall two_amplitudes rest ->
  length (fold_left kron rest q0) = (length q0 * 2 ^ length rest)%nat.
Proof.
  intros Hrest. revert q0.
  induction Hrest as [|q rest Hq _ IH]; intros q0; cbn [fold_left length Nat.pow].
  - lia.
  - rewrite IH, kron_length, Hq. lia.
Qed.

Lemma abs_squared_length (v : array) : length (abs_squared v) = length v.
Proof. unfold abs_squared. apply length_map. Qed.

(** X11.  For n >= 1 qubits of two amplitudes each, calculate_probabilities
    returns an array of exactly 2^n entries, so that main's zip with the 2^n
    state labels drops nothing. *)
Theorem calculate_probabilities_length (qubits : list array) :
  qubits <> [] ->
  Forall two_amplitudes qubits ->
  exists probabilities : list R,
    calculate_probabilities qubits = Ok probabilities
    /\ length probabilities = (2 ^ length qubits)%nat.
Proof.
  intros Hne Hall. destruct Hall as [|q0 rest Hq0 Hrest]; [contradiction|].
  eexists. split; [apply calculate_probabilities_cons|].
  rewrite abs_squared_length, fold_kron_length by exact Hrest.
  rewrite Hq0. cbn [length Nat.pow]. reflexivity.
Qed.

Lemma calculate_probabilities_length_witness :
  exists probabilities : list R,
    calculate_probabilities [[C1; C0]; [C0; C1]; [C1; C0]] = Ok probabilities
    /\ length probabilities = (2 ^ length [[C1; C0]; [C0; C1]; [C1; C0]])%nat.
Proof.
  apply (calculate_probabilities_length [[C1; C0]; [C0; C1]; [C1; C0]]).
  - discriminate.
  - repeat constructor.
Defined.

Lemma kron_lookup_two (a : array) (y0 y1 : C) (i : nat) (x : C) (b : bool) :
  a !! i = Some x ->
  kron a [y0; y1] !! (2 * i + bit_value b)%nat = Some (Cmult x (amplitude [y0; y1] b)).
Proof.
  revert i. induction a as [|x0 a IH]; intros i Hx; [discriminate|].
  destruct i as [|i].
  - cbn in Hx. injection Hx as ->. destruct b; reflexivity.
  - cbn in Hx. replace (2 * S i + bit_value b)%nat with (S (S (2 * i + bit_value b))) by lia.
    change (kron (x0 :: a) [y0; y1])
      with (Cmult x0 y0 :: Cmult x0 y1 :: kron a [y0; y1]).
    cbn [lookup list_lookup]. apply IH. exact Hx.
Qed.

Lemma fold_kron_lookup (rest : list array) (bits : list bool) (acc : array) (i : nat) (z : C) :
  Forall two_amplitudes rest ->
  length bits = length rest ->
  acc !! i = Some z ->
  fold_left kron rest acc
    !! fold_left (fun k b => (2 * k + bit_value b)%nat) bits i
  = Some (fold_left Cmult (zip_with amplitude rest bits) z).
Proof.
  intros Hrest. revert bits acc i z.
  induction Hrest as [|q rest Hq _ IH]; intros bits acc i z Hlen Hz;
    destruct bits as [|b bits]; try discriminate; cbn [fold_left zip_with].
  - exact Hz.
  - apply IH; [cbn in Hlen; lia|].
    destruct (length_2_inv q Hq) as (y0 & y1 & ->).
    apply kron_lookup_two. exact Hz.
Qed.

Lemma Cabs_sqr_fold_mult (zs : list C) (z : C) :
  Cabs (fold_left Cmult zs z) ^ 2 = Cabs z ^ 2 * Rprod (map (fun w => Cabs w ^ 2) zs).
Proof.
  revert z. induction zs as [|w zs IH]; intros z; cbn [fold_left map Rprod fold_right].
  - lra.
  - rewrite IH, Cabs_sqr_mult. fold (Rprod (map (fun w => Cabs w ^ 2) zs)). lra.
Qed.

Lemma map_zip_with_amplitude (qubits : list array) (bits : list bool) :
  map (fun w => Cabs w ^ 2) (zip_with amplitude qubits bits)
  = zip_with (fun q b => Cabs (amplitude q b) ^ 2) qubits bits.
Proof.
  revert bits. induction qubits as [|q qubits IH]; intros [|b bits];
    cbn [zip_with map]; try reflexivity.
  f_equal. apply IH.
Qed.

Lemma calculate_probabilities_lookup (qubits : list array) (bits : list bool) :
  qubits <> [] ->
  Forall two_amplitudes qubits ->
  length bits = length qubits ->
  exists probabilities : list R,
    calculate_probabilities qubits = Ok probabilities
    /\ probabilities !! bits_index bits
       = Some (Rprod (zip_with (fun q b => Cabs (amplitude q b) ^ 2) qubits bits)).
Proof.
  intros Hne Hall Hlen. destruct Hall as [|q0 rest Hq0 Hrest]; [contradiction|].
  destruct bits as [|b0 bits]; [discriminate|].
  eexists. split; [apply calculate_probabilities_cons|].
  destruct (length_2_inv q0 Hq0) as (y0 & y1 & ->).
  unfold abs_squared, bits_index. cbn [fold_left].
  rewrite list_lookup_fmap.
  rewrite (fold_kron_lookup rest bits [y0; y1] _ (amplitude [y0; y1] b0)).
  - cbn [fmap option_fmap option_map]. f_equal.
    rewrite Cabs_sqr_fold_mult, map_zip_with_amplitude. reflexivity.
  - exact Hrest.
  - cbn in Hlen. lia.
  - destruct b0; reflexivity.
Qed.

Lemma joint_amplitude_cons (q0 : array) (rest : list array) (b0 : bool) (bits : list bool) :
  joint_amplitude (q0 :: rest) (b0 :: bits)
  = fold_left Cmult (zip_with amplitude rest bits) (amplitude q0 b0).
Proof. reflexivity. Qed.

(** X12.  The entry of the probabilities at the index whose binary digits
    are b0 b1 ... (qubit 0 the most significant) is np.abs(z) ** 2 for the
    product z = ((q0[b0] * q1[b1]) * q2[b2]) ... of the amplitudes those
    digits select, multiplied in the order of the loop of np.kron. *)
Theorem calculate_probabilities_entry (qubits : list array) (bits : list bool) :
  qubits <> [] ->
  Forall two_amplitudes qubits ->
  length bits = length qubits ->
  exists probabilities : list R,
    calculate_probabilities qubits = Ok probabilities
    /\ probabilities !! bits_index bits = Some (Cabs (joint_amplitude qubits bits) ^ 2).
Proof.
  intros Hne Hall Hlen. destruct Hall as [|q0 rest Hq0 Hrest]; [contradiction|].
  destruct bits as [|b0 bits]; [discriminate|].
  eexists. split; [apply calculate_probabilities_cons|].
  destruct (length_2_inv q0 Hq0) as (y0 & y1 & ->).
  rewrite joint_amplitude_cons.
  unfold abs_squared, bits_index. cbn [fold_left].
  rewrite list_lookup_fmap.
  rewrite (fold_kron_lookup rest bits [y0; y1] _ (amplitude [y0; y1] b0)).
  - reflexivity.
  - exact Hrest.
  - cbn in Hlen. lia.
  - destruct b0; reflexivity.
Qed.

Lemma calculate_probabilities_entry_witness :
  exists probabilities : list R,
    calculate_probabilities
      [[RtoC (1 / sqrt 2); RtoC (1 / sqrt 2)];
       [RtoC (1 / sqrt 2); RtoC (-1 / sqrt 2)];
       [C0; C1]] = Ok probabilities
    /\ probabilities !! bits_index [true; true; false]
       = Some (Cabs (joint_amplitude
                       [[RtoC (1 / sqrt 2); RtoC (1 / sqrt 2)];
                        [RtoC (1 / sqrt 2); RtoC (-1 / sqrt 2)];
                        [C0; C1]] [true; true; false]) ^ 2).
Proof.
  apply (calculate_probabilities_entry
           [[RtoC (1 / sqrt 2); RtoC (1 / sqrt 2)];
            [RtoC (1 / sqrt 2); RtoC (-1 / sqrt 2)];
            [C0; C1]] [true; true; false]).
  - discriminate.
  - repeat constructor.
  - reflexivity.
Defined.

Lemma abs_squared_nonneg (v : array) : Forall (fun x => 0 <= x) (abs_squared v).
Proof.
  unfold abs_squared. apply Forall_map, Forall_forall. intros z _.
  cbn beta. apply pow2_ge_0.
Qed.

Lemma Rsum_nonneg (l : list R) : Forall (fun x => 0 <= x) l -> 0 <= Rsum l.
Proof.
  induction 1 as [|x l Hx _ IH]; cbn [Rsum fold_right]; [lra|].
  fold (Rsum l). lra.
Qed.

Lemma Rsum_ge_entry (l : list R) (x : R) :
  Forall (fun y => 0 <= y) l -> In x l -> x <= Rsum l.
Proof.
  induction 1 as [|y l Hy Hl IH]; intros Hin; [contradiction|].
  cbn [Rsum fold_right]. fold (Rsum l). pose proof (Rsum_nonneg l Hl).
  destruct Hin as [-> | Hin]; [lra | specialize (IH Hin); lra].
Qed.


(** ** The sum of the probabilities as a product (exact arithmetic) *)

Lemma abs_squared_fold_kron_prod (rest : list array) (q0 : array) :
  Rsum (abs_squared (fold_left kron rest q0))
  = Rsum (abs_squared q0) * Rprod (map (fun q => Rsum (abs_squared q)) rest).
Proof.
  revert q0. induction rest as [|q rest IH]; intros q0;
    cbn [fold_left map Rprod fold_right].
  - lra.
  - rewrite IH, abs_squared_kron.
    fold (Rprod (map (fun q => Rsum (abs_squared q)) rest)). lra.
Qed.

Lemma calculate_probabilities_sum (qubits : list array) :
  qubits <> [] ->
  exists probabilities : list R,
    calculate_probabilities qubits = Ok probabilities
    /\ Rsum probabilities = Rprod (map (fun q => Rsum (abs_squared q)) qubits).
Proof.
  destruct qubits as [|q0 rest]; [contradiction|]. intros _.
  eexists. split; [apply calculate_probabilities_cons|].
  rewrite abs_squared_fold_kron_prod. reflexivity.
Qed.

(** ** main's check of the labels *)

(** X16.  The check of the labels in main accepts exactly the lists of
    labels that simulate_circuit can turn into qubits, and raises the same
    unknown-state ValueError on the others. *)
Theorem validate_initial_states_agrees (labels : list string) :
  validate_initial_states labels
  = if is_ok (simulate_circuit labels []) then Ok tt else Err (ValueError UnknownState).
Proof.
  unfold simulate_circuit.
  replace (is_ok (let* qubits := map_result create_qubit labels in fold_result step qubits []))
    with (forallb valid_state labels).
  2:{ rewrite <- map_create_qubit_is_ok.
      destruct (map_result create_qubit labels); reflexivity. }
  unfold validate_initial_states.
  induction labels as [|label labels IH]; cbn [fold_result forallb]; [reflexivity|].
  destruct (valid_state label); cbn [negb bind andb]; [exact IH | reflexivity].
Qed.

(** ** The labels of the basis states *)

Lemma bits_index_snoc (bits : list bool) (b : bool) :
  bits_index (bits ++ [b]) = (2 * bits_index bits + bit_value b)%nat.
Proof. unfold bits_index. rewrite fold_left_app. reflexivity. Qed.

Lemma bits_index_bound (bits : list bool) : (bits_index bits < 2 ^ length bits)%nat.
Proof.
  induction bits as [|b bits IH] using rev_ind.
  - cbn. lia.
  - rewrite bits_index_snoc, length_app. cbn [length].
    replace (length bits + 1)%nat with (S (length bits)) by lia.
    cbn [Nat.pow]. destruct b; cbn [bit_value]; lia.
Qed.

Lemma bin_digits_double (k : nat) (b : bool) :
  (0 < k)%nat ->
  bin_digits (N.of_nat (2 * k + bit_value b)) = bin_digits (N.of_nat k) ++ [bit_char b].
Proof.
  intros Hk. destruct (N.of_nat k) as [|p] eqn:Hp; [lia|].
  destruct b; cbn [bit_value bit_char].
  - replace (N.of_nat (2 * k + 1)) with (Npos (xI p)) by lia. reflexivity.
  - replace (N.of_nat (2 * k + 0)) with (Npos (xO p)) by lia. reflexivity.
Qed.

Lemma repeat_snoc {A : Type} (x : A) (n : nat) : repeat x n ++ [x] = repeat x (S n).
Proof. induction n as [|n IH]; cbn [repeat app]; [reflexivity | rewrite IH; reflexivity]. Qed.

(** The digits of a list of bits are zeros followed by [bin] of its value. *)
Lemma bits_digits (bits : list bool) :
  (bits_index bits = 0%nat /\ map bit_char bits = repeat "0"%char (length bits))
  \/ ((0 < bits_index bits)%nat
      /\ exists z : nat,
          map bit_char bits
          = repeat "0"%char z ++ bin_digits (N.of_nat (bits_index bits))).
Proof.
  induction bits as [|b bits IH] using rev_ind.
  - left. split; reflexivity.
  - rewrite bits_index_snoc, map_app, length_app. cbn [map length].
    destruct IH as [[H0 Hz] | [Hpos (z & Hz)]].
    + rewrite H0, Hz. destruct b; cbn [bit_value bit_char].
      * right. split; [lia|]. exists (length bits). reflexivity.
      * left. split; [lia|]. rewrite repeat_snoc. f_equal. lia.
    + right. split; [lia|]. exists z.
      rewrite bin_digits_double by exact Hpos. rewrite Hz, app_assoc. reflexivity.
Qed.

Lemma zfill_bits (bits : list bool) :
  bits <> [] ->
  zfill (length bits) (bin_digits (N.of_nat (bits_index bits))) = map bit_char bits.
Proof.
  intros Hne. unfold zfill.
  destruct (bits_digits bits) as [[H0 Hz] | [Hpos (z & Hz)]].
  - rewrite H0, Hz. change (bin_digits (N.of_nat 0)) with ["0"%char].
    destruct bits as [|b bits]; [contradiction|].
    change (length ["0"%char]) with 1%nat.
    replace (length (b :: bits) - 1)%nat with (length bits) by (cbn [length]; lia).
    apply repeat_snoc.
  - rewrite Hz. f_equal. f_equal.
    apply (f_equal (@length _)) in Hz.
    rewrite length_map, length_app, repeat_length in Hz. lia.
Qed.

(** X15.  The label that main and the histogram put at index k of the
    probabilities spells the binary digits of k on n characters: for bits
    b0 b1 ... b(n-1), n >= 1, the entry of [states] at the index with these
    binary digits is the string of these digits between a bar and an angle
    bracket, so the label names the amplitudes that the entry of
    calculate_probabilities at that index multiplies. *)
Theorem states_label_of_bits (bits : list bool) :
  bits <> [] ->
  states (length bits) !! bits_index bits
  = Some (["|"%char] ++ map bit_char bits ++ [">"%char]).
Proof.
  intros Hne. unfold states.
  rewrite list_lookup_fmap.
  rewrite lookup_seq_lt by apply bits_index_bound.
  cbn [fmap option_fmap option_map Nat.add]. unfold state_label.
  rewrite zfill_bits by exact Hne. reflexivity.
Qed.

Lemma states_label_of_bits_witness :
  states (length [false; true; true]) !! bits_index [false; true; true]
  = Some (["|"%char] ++ map bit_char [false; true; true] ++ [">"%char]).
Proof.
  apply (states_label_of_bits [false; true; true]). discriminate.
Defined.

Example states_two_qubits :
  states 2 = map list_ascii_of_string ["|00>"; "|01>"; "|10>"; "|11>"]%string.
Proof. reflexivity. Qed.

(** ** Basis states *)


Lemma Rsum_two_entries (l : list R) (k j : nat) (x y : R) :
  Forall (fun z => 0 <= z) l ->
  l !! k = Some x -> l !! j = Some y -> k <> j -> x + y <= Rsum l.
Proof.
  intros Hl. revert k j.
  induction Hl as [|z l Hz Hl IH]; intros k j Hx Hy Hne; [discriminate|].
  cbn [Rsum fold_right]. fold (Rsum l). pose proof (Rsum_nonneg l Hl) as Hs.
  destruct k as [|k], j as [|j]; try congruence.
  - change (Some z = Some x) in Hx. change (l !! j = Some y) in Hy.
    injection Hx as ->.
    assert (y <= Rsum l).
    { apply Rsum_ge_entry; [exact Hl|]. apply list_elem_of_In.
      eapply list_elem_of_lookup_2. exact Hy. }
    lra.
  - change (l !! k = Some x) in Hx. change (Some z = Some y) in Hy.
    injection Hy as ->.
    assert (x <= Rsum l).
    { apply Rsum_ge_entry; [exact Hl|]. apply list_elem_of_In.
      eapply list_elem_of_lookup_2. exact Hx. }
    lra.
  - change (l !! k = Some x) in Hx. change (l !! j = Some y) in Hy.
    assert (x + y <= Rsum l) by (apply (IH k j); auto). lra.
Qed.

Lemma map_create_qubit_basis (bits : list bool) :
  map_result create_qubit (map basis_state_label bits)
  = Ok (map (fun b : bool => if b then [C0; C1] else [C1; C0]) bits).
Proof.
  induction bits as [|b bits IH]; cbn [map map_result]; [reflexivity|].
  rewrite IH. destruct b; reflexivity.
Qed.

Lemma Rprod_basis (bits : list bool) :
  Rprod (zip_with (fun (q : array) (b : bool) => Cabs (amplitude q b) ^ 2)
                  (map (fun b : bool => if b then [C0; C1] else [C1; C0]) bits) bits)
  = 1.
Proof.
  induction bits as [|b bits IH]; cbn [map zip_with Rprod fold_right]; [reflexivity|].
  fold (Rprod (zip_with (fun (q : array) (b : bool) => Cabs (amplitude q b) ^ 2)
                        (map (fun b : bool => if b then [C0; C1] else [C1; C0]) bits) bits)).
  rewrite IH. destruct b; cbn [amplitude bit_value nth]; rewrite Cabs_sqr; cbn; lra.
Qed.

(** X19.  Started on labels that are all 0 or 1 and run without operations,
    the simulation puts the whole probability at one index: the one whose
    binary digits are the labels, qubit 0 first.  That entry is 1 and every
    other entry is 0. *)
Theorem basis_state_probabilities (bits : list bool) :
  bits <> [] ->
  exists (qubits : list array) (probabilities : list R),
    simulate_circuit (map basis_state_label bits) [] = Ok qubits
    /\ calculate_probabilities qubits = Ok probabilities
    /\ probabilities !! bits_index bits = Some 1
    /\ forall (k : nat) (x : R),
        k <> bits_index bits -> probabilities !! k = Some x -> x = 0.
Proof.
  intros Hne.
  set (qubits := map (fun b : bool => if b then [C0; C1] else [C1; C0]) bits).
  assert (Hrun : simulate_circuit (map basis_state_label bits) [] = Ok qubits).
  { unfold simulate_circuit. rewrite map_create_qubit_basis. reflexivity. }
  destruct (calculate_probabilities_lookup qubits bits) as (p & Hp & Hk).
  - subst qubits. destruct bits; [contradiction | discriminate].
  - subst qubits. apply Forall_map, Forall_forall. intros [|] _; reflexivity.
  - subst qubits. rewrite length_map. reflexivity.
  - exists qubits, p. split; [exact Hrun|]. split; [exact Hp|].
    subst qubits. rewrite Rprod_basis in Hk. split; [exact Hk|].
    intros k x Hkne Hx.
    assert (Hsum : Rsum p = 1).
    { eapply (probabilities_sum_without_cnot _ []); [constructor | exact Hrun | exact Hp]. }
    assert (Hnn : Forall (fun z => 0 <= z) p).
    { destruct bits as [|b0 bits']; [contradiction|].
      cbn [map] in Hp. rewrite calculate_probabilities_cons in Hp.
      injection Hp as <-. apply abs_squared_nonneg. }
    pose proof (Rsum_two_entries p _ _ _ _ Hnn Hk Hx (not_eq_sym Hkne)) as Hle.
    assert (0 <= x).
    { eapply (proj1 (List.Forall_forall _ _) Hnn). apply list_elem_of_In.
      eapply list_elem_of_lookup_2. exact Hx. }
    lra.
Qed.

Lemma basis_state_probabilities_witness :
  exists (qubits : list array) (probabilities : list R),
    simulate_circuit (map basis_state_label [false; true]) [] = Ok qubits
    /\ calculate_probabilities qubits = Ok probabilities
    /\ probabilities !! bits_index [false; true] = Some 1
    /\ forall (k : nat) (x : R),
        k <> bits_index [false; true] -> probabilities !! k = Some x -> x = 0.
Proof.
  apply (basis_state_probabilities [false; true]). discriminate.
Defined.

(** ** Circuits of X and Z gates on basis states

    The labels 0 and 1 give arrays of integers, and X and Z are matrices of
    integers: everything below is computed without rounding by numpy too. *)

Lemma apply_gate_X_signed (s : R) (b : bool) :
  apply_gate (signed_ket s b) "X" = Ok (signed_ket s (negb b)).
Proof. destruct b; py_eval; Carith. Qed.

Lemma apply_gate_Z_signed (s : R) (b : bool) :
  apply_gate (signed_ket s b) "Z" = Ok (signed_ket (if b then - s else s) b).
Proof. destruct b; py_eval; Carith. Qed.

Lemma basis_qubit_X (q : array) (b : bool) :
  basis_qubit q b ->
  exists q' : array, apply_gate q "X" = Ok q' /\ basis_qubit q' (negb b).
Proof.
  intros [-> | ->]; rewrite apply_gate_X_signed; eexists; (split; [reflexivity|]);
    [left | right]; reflexivity.
Qed.

Lemma basis_qubit_Z (q : array) (b : bool) :
  basis_qubit q b ->
  exists q' : array, apply_gate q "Z" = Ok q' /\ basis_qubit q' b.
Proof.
  intros [-> | ->]; rewrite apply_gate_Z_signed; eexists; (split; [reflexivity|]);
    destruct b; unfold basis_qubit, signed_ket.
  - right. reflexivity.
  - left. reflexivity.
  - left. do 3 f_equal. lra.
  - right. reflexivity.
Qed.

Lemma basis_qubit_two_amplitudes (q : array) (b : bool) :
  basis_qubit q b -> two_amplitudes q.
Proof. intros [-> | ->]; destruct b; reflexivity. Qed.

Lemma basis_qubit_normalized (q : array) (b : bool) : basis_qubit q b -> normalized q.
Proof.
  intros [-> | ->]; destruct b; unfold signed_ket; do 2 eexists;
    (split; [reflexivity|]); rewrite norm_squared_parts; cbn; lra.
Qed.

Lemma basis_qubit_amplitude (q : array) (b : bool) :
  basis_qubit q b -> Cabs (amplitude q b) ^ 2 = 1.
Proof.
  intros [-> | ->]; destruct b; cbn [signed_ket amplitude bit_value nth];
    rewrite Cabs_sqr; cbn; lra.
Qed.

Lemma classical_step_length (bits : list bool) (op : operation) :
  length (classical_step bits op) = length bits.
Proof.
  destruct op as [i g | |]; cbn [classical_step]; try reflexivity.
  destruct (String.eqb g "X"); [|reflexivity]. unfold flip_bit.
  destruct (py_index (length bits) i) as [k|e]; [|reflexivity].
  destruct (bits !! k); [apply length_insert | reflexivity].
Qed.

Lemma classical_bits_length (ops : list operation) (bits : list bool) :
  length (classical_bits bits ops) = length bits.
Proof.
  unfold classical_bits. revert bits.
  induction ops as [|op ops IH]; intros bits; cbn [fold_left]; [reflexivity|].
  rewrite IH. apply classical_step_length.
Qed.

Lemma step_classical (qubits : list array) (bits : list bool) (op : operation) :
  Forall2 basis_qubit qubits bits ->
  classical_operation (length bits) op = true ->
  exists qubits' : list array,
    step qubits op = Ok qubits'
    /\ Forall2 basis_qubit qubits' (classical_step bits op).
Proof.
  intros Hall Hop. pose proof (Forall2_length _ _ _ Hall) as Hlen.
  destruct op as [i g | |]; cbn [classical_operation] in Hop; try discriminate.
  apply andb_true_iff in Hop as [Hi Hg].
  rewrite <- Hlen in Hi.
  destruct (valid_index_Ok _ _ Hi) as (k & Hk & Hkn).
  destruct (step_single_qubit qubits i g k Hk) as (q & Hq & Hs).
  destruct (Forall2_lookup_l _ _ _ _ _ Hall Hq) as (b & Hb & Hqb).
  rewrite Hs. cbn [classical_step]. unfold flip_bit. rewrite <- Hlen, Hk, Hb.
  destruct (String.eqb_spec g "X") as [-> | HnX].
  - destruct (basis_qubit_X q b Hqb) as (q' & -> & Hq'). cbn [bind].
    eexists. split; [reflexivity|]. apply Forall2_insert; assumption.
  - cbn [orb] in Hg. apply String.eqb_eq in Hg as ->.
    destruct (basis_qubit_Z q b Hqb) as (q' & -> & Hq'). cbn [bind].
    eexists. split; [reflexivity|].
    rewrite <- (list_insert_id bits k b Hb). apply Forall2_insert; assumption.
Qed.

Lemma fold_step_classical (ops : list operation) (qubits : list array) (bits : list bool) :
  Forall2 basis_qubit qubits bits ->
  forallb (classical_operation (length bits)) ops = true ->
  exists qubits' : list array,
    fold_result step qubits ops = Ok qubits'
    /\ Forall2 basis_qubit qubits' (classical_bits bits ops).
Proof.
  revert qubits bits. induction ops as [|op ops IH]; intros qubits bits Hall Hops.
  - eexists. split; [reflexivity | exact Hall].
  - cbn [forallb] in Hops. apply andb_true_iff in Hops as [Hop Hops].
    destruct (step_classical qubits bits op Hall Hop) as (qubits1 & Hs & Hall1).
    cbn [fold_result]. rewrite Hs. cbn [bind].
    unfold classical_bits. cbn [fold_left]. apply IH; [exact Hall1|].
    rewrite classical_step_length. exact Hops.
Qed.

Lemma basis_labels_qubits (bits : list bool) :
  exists qubits : list array,
    map_result create_qubit (map basis_state_label bits) = Ok qubits
    /\ Forall2 basis_qubit qubits bits.
Proof.
  eexists. split; [apply map_create_qubit_basis|].
  induction bits as [|b bits IH]; cbn [map]; constructor; [|exact IH].
  left. destruct b; reflexivity.
Qed.

Lemma simulate_circuit_classical (bits : list bool) (ops : list operation) :
  forallb (classical_operation (length bits)) ops = true ->
  exists qubits : list array,
    simulate_circuit (map basis_state_label bits) ops = Ok qubits
    /\ Forall2 basis_qubit qubits (classical_bits bits ops).
Proof.
  intros Hops. destruct (basis_labels_qubits bits) as (qubits0 & H0 & Hall).
  unfold simulate_circuit. rewrite H0. cbn [bind].
  apply fold_step_classical; assumption.
Qed.

Lemma Rprod_basis_qubits (qubits : list array) (bits : list bool) :
  Forall2 basis_qubit qubits bits ->
  Rprod (zip_with (fun (q : array) (b : bool) => Cabs (amplitude q b) ^ 2) qubits bits) = 1.
Proof.
  induction 1 as [|q b qubits bits Hq _ IH]; cbn [zip_with Rprod fold_right];
    [reflexivity|].
  fold (Rprod (zip_with (fun (q : array) (b : bool) => Cabs (amplitude q b) ^ 2)
                        qubits bits)).
  rewrite IH, (basis_qubit_amplitude q b Hq). lra.
Qed.

Lemma calculate_probabilities_nonneg (qubits : list array) (probabilities : list R) :
  calculate_probabilities qubits = Ok probabilities ->
  Forall (fun x => 0 <= x) probabilities.
Proof.
  destruct qubits as [|q0 rest]; [discriminate|].
  rewrite calculate_probabilities_cons. intros [= <-]. apply abs_squared_nonneg.
Qed.

Lemma basis_qubits_one_hot (qubits : list array) (bits : list bool) :
  bits <> [] ->
  Forall2 basis_qubit qubits bits ->
  exists probabilities : list R,
    calculate_probabilities qubits = Ok probabilities
    /\ probabilities !! bits_index bits = Some 1
    /\ forall (k : nat) (x : R),
        k <> bits_index bits -> probabilities !! k = Some x -> x = 0.
Proof.
  intros Hne Hall. pose proof (Forall2_length _ _ _ Hall) as Hlen.
  assert (Htwo : Forall two_amplitudes qubits).
  { apply Forall_forall. intros q Hq.
    apply list_elem_of_lookup in Hq as [k Hk].
    destruct (Forall2_lookup_l _ _ _ _ _ Hall Hk) as (b & _ & Hb).
    eapply basis_qubit_two_amplitudes. exact Hb. }
  assert (Hnorm : Forall normalized qubits).
  { apply Forall_forall. intros q Hq.
    apply list_elem_of_lookup in Hq as [k Hk].
    destruct (Forall2_lookup_l _ _ _ _ _ Hall Hk) as (b & _ & Hb).
    eapply basis_qubit_normalized. exact Hb. }
  destruct (calculate_probabilities_lookup qubits bits) as (p & Hp & Hk); auto.
  { destruct qubits; [destruct bits; [contradiction | discriminate] | discriminate]. }
  exists p. split; [exact Hp|].
  rewrite (Rprod_basis_qubits qubits bits Hall) in Hk. split; [exact Hk|].
  intros k x Hkne Hx.
  pose proof (calculate_probabilities_normalized qubits p Hnorm Hp) as Hsum.
  pose proof (calculate_probabilities_nonneg qubits p Hp) as Hnn.
  pose proof (Rsum_two_entries p _ _ _ _ Hnn Hk Hx (not_eq_sym Hkne)) as Hle.
  assert (0 <= x).
  { eapply (proj1 (List.Forall_forall _ _) Hnn). apply list_elem_of_In.
    eapply list_elem_of_lookup_2. exact Hx. }
  lra.
Qed.

(** X13.  A circuit of X and Z gates on basis states computes what the
    classical circuit computes.  From labels that are all 0 or 1, with
    single-qubit operations X and Z at Python-valid indices, the run
    succeeds, and the probabilities are 1 at the index whose binary digits
    are the labels with one flip per X on its qubit, and 0 everywhere else. *)
Theorem classical_circuit_probabilities (bits : list bool) (ops : list operation) :
  bits <> [] ->
  forallb (classical_operation (length bits)) ops = true ->
  exists (qubits : list array) (probabilities : list R),
    simulate_circuit (map basis_state_label bits) ops = Ok qubits
    /\ calculate_probabilities qubits = Ok probabilities
    /\ probabilities !! bits_index (classical_bits bits ops) = Some 1
    /\ forall (k : nat) (x : R),
        k <> bits_index (classical_bits bits ops) ->
        probabilities !! k = Some x -> x = 0.
Proof.
  intros Hne Hops.
  destruct (simulate_circuit_classical bits ops Hops) as (qubits & Hrun & Hall).
  destruct (basis_qubits_one_hot qubits (classical_bits bits ops)) as (p & Hp & H1 & H0).
  - intros Hnil. apply (f_equal (@length _)) in Hnil.
    rewrite classical_bits_length in Hnil. destruct bits; [contradiction | discriminate].
  - exact Hall.
  - exists qubits, p. auto.
Qed.

Lemma classical_circuit_probabilities_witness :
  exists (qubits : list array) (probabilities : list R),
    simulate_circuit (map basis_state_label [false; true; false])
                     [SingleQubitOp 0 "X"; SingleQubitOp (-2) "Z"; SingleQubitOp (-1) "X"]
    = Ok qubits
    /\ calculate_probabilities qubits = Ok probabilities
    /\ probabilities
         !! bits_index (classical_bits [false; true; false]
                          [SingleQubitOp 0 "X"; SingleQubitOp (-2) "Z"; SingleQubitOp (-1) "X"])
       = Some 1
    /\ forall (k : nat) (x : R),
        k <> bits_index (classical_bits [false; true; false]
                           [SingleQubitOp 0 "X"; SingleQubitOp (-2) "Z"; SingleQubitOp (-1) "X"]) ->
        probabilities !! k = Some x -> x = 0.
Proof.
  apply (classical_circuit_probabilities
           [false; true; false]
           [SingleQubitOp 0 "X"; SingleQubitOp (-2) "Z"; SingleQubitOp (-1) "X"]).
  - discriminate.
  - reflexivity.
Defined.

Example classical_bits_example :
  classical_bits [false; true; false]
                 [SingleQubitOp 0 "X"; SingleQubitOp (-2) "Z"; SingleQubitOp (-1) "X"]
  = [true; true; true].
Proof. reflexivity. Qed.

(** ** A CNOT on basis states *)

Lemma Rprod_zero (qubits : list array) (k : nat) (q : array) :
  qubits !! k = Some q ->
  Rsum (abs_squared q) = 0 ->
  Rprod (map (fun q => Rsum (abs_squared q)) qubits) = 0.
Proof.
  revert k. induction qubits as [|q0 qubits IH]; intros k Hq H0; [discriminate|].
  cbn [map Rprod fold_right].
  fold (Rprod (map (fun q => Rsum (abs_squared q)) qubits)).
  destruct k as [|k].
  - change (Some q0 = Some q) in Hq. injection Hq as ->. rewrite H0. lra.
  - change (qubits !! k = Some q) in Hq. rewrite (IH k Hq H0). lra.
Qed.

Lemma Rsum_zero_entries (l : list R) (x : R) :
  Forall (fun y => 0 <= y) l -> Rsum l = 0 -> In x l -> x = 0.
Proof.
  intros Hnn Hsum Hin.
  pose proof (Rsum_ge_entry l x Hnn Hin) as Hle.
  pose proof (proj1 (List.Forall_forall _ _) Hnn x Hin) as Hge. cbn beta in Hge. lra.
Qed.

Lemma Cabs_sqr_C0 : Cabs C0 ^ 2 = 0.
Proof. rewrite Cabs_sqr. cbn. lra. Qed.

(** X14.  On basis states a CNOT between two different qubits wipes the
    state out.  From labels that are all 0 or 1, after any X and Z
    operations, a CNOT with two different in-range indices succeeds, one of
    the two qubits becomes (0, 0), and every entry of the probabilities is
    0.  All numbers are integers, so numpy computes the same. *)
Theorem cnot_on_basis_states
        (bits : list bool) (ops : list operation) (control target : Z) :
  forallb (classical_operation (length bits)) ops = true ->
  (0 <= control < Z.of_nat (length bits))%Z ->
  (0 <= target < Z.of_nat (length bits))%Z ->
  control <> target ->
  exists (qubits : list array) (probabilities : list R),
    simulate_circuit (map basis_state_label bits)
                     (ops ++ [TwoQubitOp "CNOT" control target]) = Ok qubits
    /\ calculate_probabilities qubits = Ok probabilities
    /\ (qubits !! Z.to_nat control = Some [C0; C0]
        \/ qubits !! Z.to_nat target = Some [C0; C0])
    /\ forall x : R, In x probabilities -> x = 0.
Proof.
  intros Hops Hc Ht Hne.
  destruct (simulate_circuit_classical bits ops Hops) as (qubits1 & Hrun & Hall).
  pose proof (Forall2_length _ _ _ Hall) as Hlen.
  rewrite classical_bits_length in Hlen.
  set (c := Z.to_nat control). set (t := Z.to_nat target).
  assert (Hcn : (c < length qubits1)%nat) by (subst c; lia).
  assert (Htn : (t < length qubits1)%nat) by (subst t; lia).
  assert (Hct : c <> t) by (subst c t; lia).
  destruct (lookup_lt_is_Some_2 qubits1 c Hcn) as [qc Hqc].
  destruct (lookup_lt_is_Some_2 qubits1 t Htn) as [qt Hqt].
  destruct (Forall2_lookup_l _ _ _ _ _ Hall Hqc) as (bc & _ & Hbc).
  destruct (Forall2_lookup_l _ _ _ _ _ Hall Hqt) as (bt & _ & Hbt).
  destruct (length_2_inv qt (basis_qubit_two_amplitudes qt bt Hbt)) as (t0 & t1 & ->).
  assert (Hcnot : forall c0 c1 : C,
             qc = [c0; c1] ->
             apply_cnot qubits1 control target
             = Ok (<[t := [Cmult c1 t1; Cmult c1 t0]]>
                     (<[c := [Cmult c0 t0; Cmult c0 t1]]> qubits1))).
  { intros c0 c1 ->.
    apply (apply_cnot_entries qubits1 control target c t c0 c1 t0 t1);
      try assumption; try (apply py_index_nonneg; lia). lia. }
  assert (Hfinish : forall (qubits' : list array) (k : nat) (z : array),
             apply_cnot qubits1 control target = Ok qubits' ->
             length qubits' = length qubits1 ->
             qubits' !! k = Some z ->
             Rsum (abs_squared z) = 0 ->
             exists probabilities : list R,
               simulate_circuit (map basis_state_label bits)
                                (ops ++ [TwoQubitOp "CNOT" control target]) = Ok qubits'
               /\ calculate_probabilities qubits' = Ok probabilities
               /\ forall x : R, In x probabilities -> x = 0).
  { intros qubits' k z Hap Hl Hz H0.
    destruct (calculate_probabilities_sum qubits') as (p & Hp & Hsum).
    { intros Hnil. rewrite Hnil in Hl. cbn in Hl. lia. }
    exists p. split.
    - rewrite simulate_circuit_app, Hrun. cbn [bind fold_result step String.eqb Ascii.eqb Bool.eqb].
      rewrite Hap. reflexivity.
    - split; [exact Hp|]. intros x Hx.
      apply (Rsum_zero_entries p x); [|rewrite Hsum; eapply Rprod_zero; eassumption | exact Hx].
      eapply calculate_probabilities_nonneg. exact Hp. }
  assert (Hmul0 : forall a b : C, [Cmult C0 a; Cmult C0 b] = [C0; C0]).
  { intros [x y] [x' y']. unfold Cmult, C0, RtoC. cbn [Re Im]. split_entries; lra. }
  assert (Hzero : Rsum (abs_squared [C0; C0]) = 0).
  { cbn [abs_squared map Rsum fold_right]. rewrite Cabs_sqr_C0. lra. }
  destruct bc.
  - (* the control is the state 1: its first amplitude is 0 *)
    assert (Hqc0 : exists s, qc = [C0; RtoC s]) by (destruct Hbc as [-> | ->]; eauto).
    destruct Hqc0 as (s & ->).
    specialize (Hcnot C0 (RtoC s) eq_refl). rewrite Hmul0 in Hcnot.
    destruct (Hfinish _ c [C0; C0] Hcnot) as (p & H1 & H2 & H3).
    + rewrite !length_insert. reflexivity.
    + rewrite list_lookup_insert_ne by congruence.
      apply list_lookup_insert_eq. exact Hcn.
    + exact Hzero.
    + eexists. exists p. split; [exact H1|]. split; [exact H2|]. split; [|exact H3].
      left. rewrite list_lookup_insert_ne by congruence.
      apply list_lookup_insert_eq. exact Hcn.
  - (* the control is the state 0: its second amplitude is 0 *)
    assert (Hqc0 : exists s, qc = [RtoC s; C0]) by (destruct Hbc as [-> | ->]; eauto).
    destruct Hqc0 as (s & ->).
    specialize (Hcnot (RtoC s) C0 eq_refl). rewrite Hmul0 in Hcnot.
    destruct (Hfinish _ t [C0; C0] Hcnot) as (p & H1 & H2 & H3).
    + rewrite !length_insert. reflexivity.
    + apply list_lookup_insert_eq. rewrite length_insert. exact Htn.
    + exact Hzero.
    + eexists. exists p. split; [exact H1|]. split; [exact H2|]. split; [|exact H3].
      right. apply list_lookup_insert_eq. rewrite length_insert. exact Htn.
Qed.

Lemma cnot_on_basis_states_witness :
  exists (qubits : list array) (probabilities : list R),
    simulate_circuit (map basis_state_label [true; false; true])
                     ([SingleQubitOp 1 "X"] ++ [TwoQubitOp "CNOT" 0 2]) = Ok qubits
    /\ calculate_probabilities qubits = Ok probabilities
    /\ (qubits !! Z.to_nat 0 = Some [C0; C0]
        \/ qubits !! Z.to_nat 2 = Some [C0; C0])
    /\ forall x : R, In x probabilities -> x = 0.
Proof.
  apply (cnot_on_basis_states [true; false; true] [SingleQubitOp 1 "X"] 0 2).
  - reflexivity.
  - simpl. lia.
  - simpl. lia.
  - discriminate.
Defined.

(** ** A CNOT on fewer than two qubits *)

(** X7.  A CNOT that the loop reaches on fewer than two qubits raises the
    too-few-qubits ValueError of apply_cnot whatever its two indices are,
    in range or not: the check of the number of qubits comes before any
    index is used. *)
Theorem simulate_circuit_cnot_too_few_qubits
        (labels : list string) (pre post : list operation) (control target : Z) :
  (length labels < 2)%nat ->
  is_ok (simulate_circuit labels pre) = true ->
  simulate_circuit labels (pre ++ TwoQubitOp "CNOT" control target :: post)
  = Err (ValueError TooFewQubits).
Proof.
  intros Hlen Hpre. rewrite simulate_circuit_app.
  destruct (simulate_circuit labels pre) as [qubits|e] eqn:Hrun; [|discriminate].
  apply simulate_circuit_length in Hrun.
  cbn [bind fold_result step String.eqb Ascii.eqb Bool.eqb]. unfold apply_cnot.
  replace (length qubits <? 2)%nat with true by (symmetry; apply Nat.ltb_lt; lia).
  reflexivity.
Qed.

Lemma simulate_circuit_cnot_too_few_qubits_witness :
  simulate_circuit ["+"%string]
                   ([SingleQubitOp 0 "H"] ++ TwoQubitOp "CNOT" 0 0 :: [SingleQubitOp 0 "X"])
  = Err (ValueError TooFewQubits).
Proof.
  apply (simulate_circuit_cnot_too_few_qubits
           ["+"%string] [SingleQubitOp 0 "H"] [SingleQubitOp 0 "X"] 0 0).
  - simpl. lia.
  - reflexivity.
Defined.
